(** * fromrayacamera: the page-enhancement script [optimize.js]

    A shallow embedding of the script as functions on an explicit page
    state.  The browser is the environment: it owns the document, keeps
    the table of registered listeners, and delivers events (intersection
    batches, image load/error, pointer, connection change, scroll, frames)
    to the handlers the script registered.  Closures of the script are
    defunctionalised: every [function() {...}] or arrow function handed to
    the platform is a constructor of [Handler], interpreted by
    [run_handler]. *)

From Stdlib Require Import Ascii.
From stdpp Require Import base decidable option list strings gmap pretty.

Open Scope string_scope.
Open Scope list_scope.

Set Warnings "-clear-no-such-hyp".

(** ** Strings as the script uses them *)

Module Str.

(** Simple case folding of one byte, as the [i] flag of a regular
    expression folds the ASCII letters of a pattern. *)
Definition fold_case (c : ascii) : ascii :=
  let n := nat_of_ascii c in
  if (65 <=? n)%nat && (n <=? 90)%nat then ascii_of_nat (n + 32) else c.

Definition char_eq (ci : bool) (a b : ascii) : bool :=
  if ci then bool_decide (fold_case a = fold_case b) else bool_decide (a = b).

Fixpoint starts_with (ci : bool) (pat s : string) : bool :=
  match pat, s with
  | EmptyString, _ => true
  | String a pat', String b s' => char_eq ci a b && starts_with ci pat' s'
  | String _ _, EmptyString => false
  end.

(** [pat] occurs somewhere in [s]: the attribute selector [[a*="pat"]]
    ([ci = false]) and an unanchored literal alternative of a regular
    expression ([ci = true] under the [i] flag). *)
Fixpoint occurs (ci : bool) (pat s : string) : bool :=
  starts_with ci pat s ||
  match s with
  | EmptyString => false
  | String _ s' => occurs ci pat s'
  end.

(** JavaScript [===] on two strings. *)
Definition eq (a b : string) : bool := bool_decide (a = b).

(** Truthiness of a string value: every string but the empty one. *)
Definition truthy (s : string) : bool := negb (eq s "").

End Str.

(** ** The document and the platform state *)

(** [DOMTokenList]: an ordered set of class names. *)
Module ClassList.
Definition t := list string.
Definition contains (c : string) (l : t) : bool := bool_decide (c ∈ l).
Definition add (c : string) (l : t) : t := if contains c l then l else l ++ [c].
Definition remove (c : string) (l : t) : t := filter (λ x, x ≠ c) l.
End ClassList.

(** ** Numbers as the script computes with them *)

(** The script multiplies image dimensions as Numbers, that is as IEEE 754
    doubles, and prints the products.  The dimensions are [unsigned long]
    values, so every Number that arises is a non-negative integer below
    [2^64]; it is kept as the integer it denotes. *)
Module Num.

(** An [unsigned long] attribute: an integer below [2^32]. *)
Definition of_unsigned_long (n : N) : N := (n mod 2 ^ 32)%N.

(** The Number nearest to an integer: 53 significant bits, ties to the
    even significand. *)
Definition round (v : N) : N :=
  let excess := (N.size v - 53)%N in
  if (excess =? 0)%N then v
  else
    let q := N.shiftr v excess in
    let r := N.land v (N.ones excess) in
    let half := N.shiftl 1 (excess - 1) in
    let q' := if (half <? r)%N || ((r =? half)%N && N.odd q)
              then (q + 1)%N else q in
    N.shiftl q' excess.

(** [a * b] and [a > b] on Numbers. *)
Definition mul (a b : N) : N := round (a * b).
Definition gt (a b : N) : bool := (b <? a)%N.

(** Among the decimals with the fewest significant digits that denote
    the Number [x], the one nearest to [x]: the candidates with [m]
    trailing zeros are tried for decreasing [m]. *)
Fixpoint shortest (fuel : nat) (m : N) (x : N) : N :=
  let pw := (10 ^ m)%N in
  let s := (x / pw)%N in
  let lo := (s * pw)%N in
  let hi := (lo + pw)%N in
  let ok_lo := (round lo =? x)%N in
  let ok_hi := (round hi =? x)%N in
  if ok_lo && ok_hi then
    if (x - lo <? hi - x)%N then lo
    else if (hi - x <? x - lo)%N then hi
    else if N.even s then lo else hi
  else if ok_lo then lo
  else if ok_hi then hi
  else
    match fuel with
    | O => x
    | S fuel' => shortest fuel' (m - 1) x
    end.

(** Number to string, as a template literal converts it: for the values
    below [10^21] that arise, the digits of that decimal. *)
Definition to_string (x : N) : string :=
  let len := String.length (pretty x) in
  pretty (shortest len (N.of_nat len - 1) x).

End Num.

(** An [<img>] element: the attributes the script reads or writes, and the
    platform-owned flags and dimensions it reads. *)
Record Img := mkImg {
  img_src : option string;        (* content attribute [src] *)
  img_data_src : option string;   (* content attribute [data-src] *)
  img_loading : option string;    (* content attribute [loading] *)
  img_complete : bool;            (* [img.complete] *)
  img_classList : ClassList.t;
  img_width : N;                  (* [unsigned long], as the next three *)
  img_height : N;
  img_naturalWidth : N;
  img_naturalHeight : N
}.

(** An [<a>] element. *)
Record Anchor := mkAnchor { a_href : option string }.

(** Children appended to [document.head]. *)
Inductive HeadNode :=
| LinkNode (rel href : string)
| StyleNode.

Inductive ReadyState := Loading | Interactive | Complete.

(** [navigator.connection]: the property may be missing from [navigator],
    present with a nullish value, or a NetworkInformation object with its
    current [effectiveType]. *)
Inductive NavConnection :=
| NotInNavigator
| NullishConnection
| NetworkInformation (effectiveType : string).

(** What the script inspects of its environment and never changes. *)
Record Env := mkEnv {
  userAgent : string;
  hostname : string;
  has_IntersectionObserver : bool;   (* ['IntersectionObserver' in window] *)
  has_AOS : bool;                    (* [window.AOS] is truthy *)
  has_ontouchstart : bool;           (* ['ontouchstart' in window] *)
  readyState : ReadyState;           (* [document.readyState] when the script runs *)
  resolve_url : string → string;     (* URL resolution against the document base *)
  deferred : bool                    (* at [interactive]: the script runs before
                                        [DOMContentLoaded], as a [defer] or module
                                        script does *)
}.

Inductive Target :=
| TDocument
| TWindow
| TConnection
| TImg (i : nat)
| TAnchor (j : nat).

Inductive EventType :=
| DOMContentLoaded | touchstart | scroll | load | error | change | mouseenter.

(** The closures of the script, by the line that creates them. *)
Inductive Handler :=
| ObserveLazyImages   (* line 30 *)
| ConfigureAOS        (* line 37 *)
| FadeIn              (* line 68 *)
| MarkError           (* line 73 *)
| NoopTouch           (* line 85 *)
| ThrottleScroll      (* line 90 *)
| NetworkChange       (* line 106 *)
| PrefetchOnEnter     (* line 131 *)
| MeasureSize         (* line 150 *)
| ReportLargeImages   (* line 166 *)
| Init.               (* line 191 *)

(** The callback passed to [requestAnimationFrame] at line 92. *)
Inductive RafCallback := ResetTicking.

Record Registration := mkReg {
  reg_target : Target;
  reg_type : EventType;
  reg_handler : Handler;
  reg_once : bool
}.

#[global] Instance Target_eq_dec : EqDecision Target.
Proof. solve_decision. Defined.
#[global] Instance EventType_eq_dec : EqDecision EventType.
Proof. solve_decision. Defined.
#[global] Instance Handler_eq_dec : EqDecision Handler.
Proof. solve_decision. Defined.
#[global] Instance Registration_eq_dec : EqDecision Registration.
Proof. solve_decision. Defined.

Record AOSConfig := mkAOS {
  aos_duration : nat;
  aos_once : bool;
  aos_disable : bool;
  aos_offset : nat;
  aos_easing : string
}.

Record LargeImage := mkLarge {
  li_src : string;
  li_natural : N;
  li_display : N
}.

Inductive ConsoleCall :=
| Warn (args : list string)
| Log (args : list string)
| Group (label : string)
| GroupEnd.

Inductive JSError := TypeError (what : string).

(** One entry of an intersection batch. *)
Record Entry := mkEntry {
  target : nat;
  isIntersecting : bool
}.

#[global] Instance Entry_eq_dec : EqDecision Entry.
Proof. solve_decision. Defined.

(** The options the observer is created with (lines 24-27); the threshold
    0.01 is kept as a percentage. *)
Record ObserverOptions := mkOptions {
  rootMargin : string;
  threshold_percent : nat
}.

Record Page := mkPage {
  env : Env;
  connection : NavConnection;
  imgs : list Img;
  anchors : list Anchor;
  body_classList : ClassList.t;
  head : list HeadNode;
  listeners : list Registration;         (* every [addEventListener] so far *)
  observed : gset nat;                    (* targets of [imageObserver] *)
  ticking : bool;                         (* the guard of line 89 *)
  raf_queue : list RafCallback;           (* pending animation-frame callbacks *)
  largeImages : list LargeImage;          (* the array of line 146 *)
  aos_calls : list AOSConfig;             (* arguments of each [AOS.init] *)
  console : list ConsoleCall;
  src_assignments : list (nat * string);  (* each [img.src = url], in order *)
  uncaught : list JSError                 (* exceptions that reached the platform *)
}.

(** The parsed markup a page starts from. *)
Record Document := mkDocument {
  d_imgs : list Img;
  d_anchors : list Anchor;
  d_body_class : ClassList.t;
  d_head : list HeadNode
}.

(** A freshly parsed page: nothing registered, nothing observed, nothing
    logged. *)
Definition fresh_page (e : Env) (c : NavConnection) (d : Document) : Page :=
  {| env := e; connection := c;
     imgs := d_imgs d; anchors := d_anchors d;
     body_classList := d_body_class d; head := d_head d;
     listeners := []; observed := ∅; ticking := false; raf_queue := [];
     largeImages := []; aos_calls := []; console := [];
     src_assignments := []; uncaught := [] |}.

(** *** Field updates *)

Definition set_connection (c : NavConnection) (p : Page) : Page :=
  mkPage (env p) c (imgs p) (anchors p) (body_classList p) (head p)
    (listeners p) (observed p) (ticking p) (raf_queue p) (largeImages p)
    (aos_calls p) (console p) (src_assignments p) (uncaught p).

Definition set_imgs (f : list Img → list Img) (p : Page) : Page :=
  mkPage (env p) (connection p) (f (imgs p)) (anchors p) (body_classList p) (head p)
    (listeners p) (observed p) (ticking p) (raf_queue p) (largeImages p)
    (aos_calls p) (console p) (src_assignments p) (uncaught p).

Definition set_body_classList (f : ClassList.t → ClassList.t) (p : Page) : Page :=
  mkPage (env p) (connection p) (imgs p) (anchors p) (f (body_classList p)) (head p)
    (listeners p) (observed p) (ticking p) (raf_queue p) (largeImages p)
    (aos_calls p) (console p) (src_assignments p) (uncaught p).

Definition set_head (f : list HeadNode → list HeadNode) (p : Page) : Page :=
  mkPage (env p) (connection p) (imgs p) (anchors p) (body_classList p) (f (head p))
    (listeners p) (observed p) (ticking p) (raf_queue p) (largeImages p)
    (aos_calls p) (console p) (src_assignments p) (uncaught p).

Definition set_listeners (f : list Registration → list Registration) (p : Page) : Page :=
  mkPage (env p) (connection p) (imgs p) (anchors p) (body_classList p) (head p)
    (f (listeners p)) (observed p) (ticking p) (raf_queue p) (largeImages p)
    (aos_calls p) (console p) (src_assignments p) (uncaught p).

Definition set_observed (f : gset nat → gset nat) (p : Page) : Page :=
  mkPage (env p) (connection p) (imgs p) (anchors p) (body_classList p) (head p)
    (listeners p) (f (observed p)) (ticking p) (raf_queue p) (largeImages p)
    (aos_calls p) (console p) (src_assignments p) (uncaught p).

Definition set_ticking (b : bool) (p : Page) : Page :=
  mkPage (env p) (connection p) (imgs p) (anchors p) (body_classList p) (head p)
    (listeners p) (observed p) b (raf_queue p) (largeImages p)
    (aos_calls p) (console p) (src_assignments p) (uncaught p).

Definition set_raf_queue (f : list RafCallback → list RafCallback) (p : Page) : Page :=
  mkPage (env p) (connection p) (imgs p) (anchors p) (body_classList p) (head p)
    (listeners p) (observed p) (ticking p) (f (raf_queue p)) (largeImages p)
    (aos_calls p) (console p) (src_assignments p) (uncaught p).

Definition set_largeImages (f : list LargeImage → list LargeImage) (p : Page) : Page :=
  mkPage (env p) (connection p) (imgs p) (anchors p) (body_classList p) (head p)
    (listeners p) (observed p) (ticking p) (raf_queue p) (f (largeImages p))
    (aos_calls p) (console p) (src_assignments p) (uncaught p).

Definition set_aos_calls (f : list AOSConfig → list AOSConfig) (p : Page) : Page :=
  mkPage (env p) (connection p) (imgs p) (anchors p) (body_classList p) (head p)
    (listeners p) (observed p) (ticking p) (raf_queue p) (largeImages p)
    (f (aos_calls p)) (console p) (src_assignments p) (uncaught p).

Definition set_console (f : list ConsoleCall → list ConsoleCall) (p : Page) : Page :=
  mkPage (env p) (connection p) (imgs p) (anchors p) (body_classList p) (head p)
    (listeners p) (observed p) (ticking p) (raf_queue p) (largeImages p)
    (aos_calls p) (f (console p)) (src_assignments p) (uncaught p).

Definition set_src_assignments (f : list (nat * string) → list (nat * string)) (p : Page) : Page :=
  mkPage (env p) (connection p) (imgs p) (anchors p) (body_classList p) (head p)
    (listeners p) (observed p) (ticking p) (raf_queue p) (largeImages p)
    (aos_calls p) (console p) (f (src_assignments p)) (uncaught p).

Definition set_uncaught (f : list JSError → list JSError) (p : Page) : Page :=
  mkPage (env p) (connection p) (imgs p) (anchors p) (body_classList p) (head p)
    (listeners p) (observed p) (ticking p) (raf_queue p) (largeImages p)
    (aos_calls p) (console p) (src_assignments p) (f (uncaught p)).

Definition with_classList (f : ClassList.t → ClassList.t) (im : Img) : Img :=
  mkImg (img_src im) (img_data_src im) (img_loading im) (img_complete im)
    (f (img_classList im)) (img_width im) (img_height im)
    (img_naturalWidth im) (img_naturalHeight im).

Definition with_src (u : string) (im : Img) : Img :=
  mkImg (Some u) (img_data_src im) (img_loading im) (img_complete im)
    (img_classList im) (img_width im) (img_height im)
    (img_naturalWidth im) (img_naturalHeight im).

Definition without_data_src (im : Img) : Img :=
  mkImg (img_src im) None (img_loading im) (img_complete im)
    (img_classList im) (img_width im) (img_height im)
    (img_naturalWidth im) (img_naturalHeight im).

(** ** Running script code: state and exceptions *)

Inductive Completion (A : Type) :=
| Normal (a : A)
| Throw (e : JSError).
Arguments Normal {A} a.
Arguments Throw {A} e.

(** A piece of script code: it changes the page and either completes or
    throws; what it did before throwing stays done. *)
Definition Js (A : Type) : Type := Page → Page * Completion A.

#[global] Instance Js_ret : MRet Js := λ A a p, (p, Normal a).
#[global] Instance Js_bind : MBind Js := λ A B k m p,
  match m p with
  | (p', Normal a) => k a p'
  | (p', Throw e) => (p', Throw e)
  end.

Definition throw {A} (e : JSError) : Js A := λ p, (p, Throw e).
Definition effect (f : Page → Page) : Js unit := λ p, (f p, Normal tt).
Definition ask {A} (f : Page → A) : Js A := λ p, (p, Normal (f p)).

(** An exception nobody catches is reported to the platform. *)
Definition report {A} (r : Page * Completion A) : Page :=
  match r with
  | (p, Normal _) => p
  | (p, Throw e) => set_uncaught (λ l, l ++ [e]) p
  end.

(** ** The DOM operations the script calls *)

Definition addEventListener (t : Target) (ty : EventType) (h : Handler)
    (once : bool) : Page → Page :=
  set_listeners (λ l, l ++ [mkReg t ty h once]).

(** Positions, in document order, of the elements a selector matches. *)
Definition select {A} (sel : A → bool) (l : list A) : list nat :=
  filter (λ i, from_option sel false (l !! i)) (seq 0 (length l)).

Definition forEach {A} (l : list A) (f : A → Page → Page) (p : Page) : Page :=
  foldl (λ q x, f x q) p l.

Definition alter_img (f : Img → Img) (i : nat) : Page → Page :=
  set_imgs (alter f i).

Definition classList_add (i : nat) (c : string) : Page → Page :=
  alter_img (with_classList (ClassList.add c)) i.

(** [img.dataset.src]: the value of [data-src], or undefined. *)
Definition dataset_src (i : nat) (p : Page) : option string :=
  imgs p !! i ≫= img_data_src.

(** The [src] property of an image: the resolved attribute, the empty
    string without one. *)
Definition src_of (i : nat) (p : Page) : string :=
  match imgs p !! i ≫= img_src with
  | Some s => resolve_url (env p) s
  | None => ""
  end.

(** [img.src = u]: writes the attribute; the platform starts loading [u]. *)
Definition assign_src (i : nat) (u : string) (p : Page) : Page :=
  set_src_assignments (λ l, l ++ [(i, u)]) (alter_img (with_src u) i p).

Definition removeAttribute_data_src (i : nat) : Page → Page :=
  alter_img without_data_src i.

(** The [href] property of an anchor. *)
Definition href_of (j : nat) (p : Page) : string :=
  match anchors p !! j ≫= a_href with
  | Some s => resolve_url (env p) s
  | None => ""
  end.

Definition appendChild_head (n : HeadNode) : Page → Page :=
  set_head (λ l, l ++ [n]).

Definition console_call (c : ConsoleCall) : Page → Page :=
  set_console (λ l, l ++ [c]).

Definition observe (i : nat) : Page → Page := set_observed (λ s, {[i]} ∪ s).
Definition unobserve (i : nat) : Page → Page := set_observed (λ s, s ∖ {[i]}).

Definition requestAnimationFrame (cb : RafCallback) : Page → Page :=
  set_raf_queue (λ l, l ++ [cb]).

(** ** The script, top to bottom *)

(** Lines 12-27: the observer callback, one entry at a time. *)
Definition imageObserver_entry (entry : Entry) (p : Page) : Page :=
  if isIntersecting entry then
    let img := target entry in
    let p1 :=
      match dataset_src img p with
      | Some u =>
          if Str.truthy u
          then removeAttribute_data_src img (assign_src img u p)
          else p
      | None => p
      end in
    unobserve img p1
  else p.

Definition imageObserver (entries : list Entry) : Page → Page :=
  forEach entries imageObserver_entry.

Definition imageObserver_options : ObserverOptions :=
  {| rootMargin := "50px 0px"; threshold_percent := 1 |}.

(** Lines 30-33. *)
Definition has_data_src (im : Img) : bool := bool_decide (is_Some (img_data_src im)).

Definition observeLazyImages (p : Page) : Page :=
  let lazyImages := select has_data_src (imgs p) in
  forEach lazyImages observe p.

(** Lines 40-44. *)
Definition mobile_patterns : list string :=
  ["Android"; "webOS"; "iPhone"; "iPad"; "iPod"; "BlackBerry"; "IEMobile"; "Opera Mini"].

Definition isMobile (ua : string) : bool :=
  existsb (λ pat, Str.occurs true pat ua) mobile_patterns.

(** The truthiness of [navigator.connection && (...)]. *)
Definition isSlowConnection (c : NavConnection) : bool :=
  match c with
  | NetworkInformation effectiveType =>
      Str.eq effectiveType "slow-2g" || Str.eq effectiveType "2g"
      || Str.eq effectiveType "3g"
  | NotInNavigator | NullishConnection => false
  end.

(** The object literal passed to [AOS.init]. *)
Definition aos_config (slow : bool) : AOSConfig :=
  {| aos_duration := 600; aos_once := true;
     aos_disable := if slow then true else false;
     aos_offset := 50; aos_easing := "ease-in-out" |}.

(** Lines 37-57. *)
Definition configureAOS (p : Page) : Page :=
  if has_AOS (env p) then
    let mobile := isMobile (userAgent (env p)) in
    let slow := isSlowConnection (connection p) in
    if mobile || slow then
      set_aos_calls (λ l, l ++ [aos_config slow]) p
    else p
  else p.

(** Lines 60-79. *)
Definition is_lazy (im : Img) : bool := bool_decide (img_loading im = Some "lazy").

Definition complete (i : nat) (p : Page) : bool :=
  from_option img_complete false (imgs p !! i).

Definition progressiveImageLoad (p : Page) : Page :=
  let images := select is_lazy (imgs p) in
  forEach images (λ img q,
    if complete img q then classList_add img "loaded" q
    else
      addEventListener (TImg img) error MarkError false
        (addEventListener (TImg img) load FadeIn false q)) p.

Definition fadeIn (this : Target) : Page → Page :=
  match this with
  | TImg i => classList_add i "loaded"
  | _ => id
  end.

Definition markError (this : Target) (p : Page) : Page :=
  match this with
  | TImg i =>
      console_call (Warn ["Failed to load image:"; src_of i p])
        (classList_add i "error" p)
  | _ => p
  end.

(** Lines 82-98. *)
Definition optimizeTouchInteraction (p : Page) : Page :=
  let p1 :=
    if has_ontouchstart (env p)
    then addEventListener TDocument touchstart NoopTouch false p
    else p in
  addEventListener TWindow scroll ThrottleScroll false (set_ticking false p1).

Definition throttleScroll (p : Page) : Page :=
  if negb (ticking p)
  then set_ticking true (requestAnimationFrame ResetTicking p)
  else p.

Definition run_raf (cb : RafCallback) : Page → Page :=
  match cb with ResetTicking => set_ticking false end.

(** Lines 101-123. *)
Definition low_bandwidth (effectiveType : string) : bool :=
  Str.eq effectiveType "slow-2g" || Str.eq effectiveType "2g".

Definition networkChange (p : Page) : Page :=
  match connection p with
  | NetworkInformation effectiveType =>
      if low_bandwidth effectiveType then
        console_call (Log ["Low bandwidth detected - optimizing content"])
          (set_body_classList (ClassList.add "low-bandwidth") p)
      else set_body_classList (ClassList.remove "low-bandwidth") p
  | NotInNavigator | NullishConnection => p
  end.

(** The initial check of line 119. *)
Definition initial_check (p : Page) : Page :=
  match connection p with
  | NetworkInformation effectiveType =>
      if low_bandwidth effectiveType
      then set_body_classList (ClassList.add "low-bandwidth") p else p
  | NotInNavigator | NullishConnection => p
  end.

(** What [connection.addEventListener] throws on a nullish value. *)
Definition nullish_error : JSError :=
  TypeError "Cannot read properties of undefined (reading 'addEventListener')".

Definition adaptToNetworkCondition : Js unit :=
  c ← ask connection;
  match c with
  | NotInNavigator => mret tt
  | NullishConnection => throw nullish_error
  | NetworkInformation _ =>
      effect (addEventListener TConnection change NetworkChange false) ;;
      effect initial_check
  end.

(** Lines 126-140. *)
Definition is_html_link (a : Anchor) : bool :=
  from_option (Str.occurs false ".html") false (a_href a).

Definition prefetchCriticalResources (p : Page) : Page :=
  let navLinks := select is_html_link (anchors p) in
  forEach navLinks (λ link,
    addEventListener (TAnchor link) mouseenter PrefetchOnEnter true) p.

Definition prefetchOnEnter (this : Target) (p : Page) : Page :=
  match this with
  | TAnchor j =>
      let url := href_of j p in
      appendChild_head (LinkNode "prefetch" url) p
  | _ => p
  end.

(** [window.location.hostname] names the local machine. *)
Definition localhost (e : Env) : bool :=
  Str.eq (hostname e) "localhost" || Str.eq (hostname e) "127.0.0.1".

(** Lines 143-178. *)
Definition is_png_or_jpg (im : Img) : bool :=
  from_option (λ s, Str.occurs false ".png" s || Str.occurs false ".jpg" s)
    false (img_src im).

Definition checkImageSizes (p : Page) : Page :=
  if localhost (env p) then
    let images := select is_png_or_jpg (imgs p) in
    let p1 := set_largeImages (λ _, []) p in
    let p2 := forEach images (λ img,
                addEventListener (TImg img) load MeasureSize false) p1 in
    addEventListener TWindow load ReportLargeImages false p2
  else p.

(** [this.width] and the like: the [unsigned long] properties. *)
Definition width (im : Img) : N := Num.of_unsigned_long (img_width im).
Definition height (im : Img) : N := Num.of_unsigned_long (img_height im).
Definition naturalWidth (im : Img) : N :=
  Num.of_unsigned_long (img_naturalWidth im).
Definition naturalHeight (im : Img) : N :=
  Num.of_unsigned_long (img_naturalHeight im).

Definition measureSize (this : Target) (p : Page) : Page :=
  match this with
  | TImg i =>
      match imgs p !! i with
      | Some im =>
          let displaySize := Num.mul (width im) (height im) in
          let naturalSize := Num.mul (naturalWidth im) (naturalHeight im) in
          if Num.gt naturalSize (Num.mul displaySize 2) then
            set_largeImages (λ l, l ++ [
              {| li_src := src_of i p; li_natural := naturalSize;
                 li_display := displaySize |} ]) p
          else p
      | None => p
      end
  | _ => p
  end.

(** The template literal of line 171. *)
Definition size_line (img : LargeImage) : ConsoleCall :=
  Log [ li_src img +:+ " - Natural: " +:+ Num.to_string (li_natural img)
        +:+ "px, Display: " +:+ Num.to_string (li_display img) +:+ "px" ].

Definition reportLargeImages (p : Page) : Page :=
  if (0 <? length (largeImages p))%nat then
    let p1 := console_call (Group "Image Optimization Recommendations") p in
    let p2 := console_call (Log ["The following images are larger than necessary:"]) p1 in
    let p3 := forEach (largeImages p2) (λ img, console_call (size_line img)) p2 in
    let p4 := console_call (Log ["Consider resizing these images to improve load time."]) p3 in
    console_call GroupEnd p4
  else p.

(** Lines 181-187. *)
Definition init : Js unit :=
  effect progressiveImageLoad ;;
  effect optimizeTouchInteraction ;;
  adaptToNetworkCondition ;;
  effect prefetchCriticalResources ;;
  effect checkImageSizes.

(** The body of every closure, with its [this]. *)
Definition run_handler (h : Handler) (this : Target) : Js unit :=
  match h with
  | ObserveLazyImages => effect observeLazyImages
  | ConfigureAOS => effect configureAOS
  | FadeIn => effect (fadeIn this)
  | MarkError => effect (markError this)
  | NoopTouch => mret tt
  | ThrottleScroll => effect throttleScroll
  | NetworkChange => effect networkChange
  | PrefetchOnEnter => effect (prefetchOnEnter this)
  | MeasureSize => effect (measureSize this)
  | ReportLargeImages => effect reportLargeImages
  | Init => init
  end.

(** Lines 6-229: the immediately invoked function. *)
Definition script : Js unit :=
  (has_io ← ask (λ p, has_IntersectionObserver (env p));
   if has_io : bool
   then effect (addEventListener TDocument DOMContentLoaded ObserveLazyImages false)
   else mret tt) ;;
  effect (addEventListener TDocument DOMContentLoaded ConfigureAOS false) ;;
  (rs ← ask (λ p, readyState (env p));
   match rs with
   | Loading => effect (addEventListener TDocument DOMContentLoaded Init false)
   | _ => init
   end) ;;
  effect (appendChild_head StyleNode).

(** ** The platform: dispatch and the events of a page's life *)

Definition listens (t : Target) (ty : EventType) (r : Registration) : bool :=
  bool_decide (reg_target r = t) && bool_decide (reg_type r = ty).

Fixpoint remove_first (r : Registration) (l : list Registration) : list Registration :=
  match l with
  | [] => []
  | x :: l' => if bool_decide (x = r) then l' else x :: remove_first r l'
  end.

(** One listener is invoked: a [once] listener leaves the table before its
    callback runs, and an exception of the callback is reported, not
    propagated. *)
Definition invoke (r : Registration) (p : Page) : Page :=
  let p1 := if reg_once r then set_listeners (remove_first r) p else p in
  report (run_handler (reg_handler r) (reg_target r) p1).

(** The listeners of [t] for [ty], as registered when the dispatch starts,
    run in registration order. *)
Definition dispatchEvent (t : Target) (ty : EventType) (p : Page) : Page :=
  forEach (filter (λ r, listens t ty r) (listeners p)) invoke p.

(** [DOMContentLoaded] is still to be dispatched when the script runs:
    always while the document is loading; at [interactive] for a script
    that runs between the end of parsing and the event; never once the
    document is complete. *)
Definition awaits_DOMContentLoaded (e : Env) : bool :=
  match readyState e with
  | Loading => true
  | Interactive => deferred e
  | Complete => false
  end.

(** Loading a page: the script runs on the fresh page; if
    [DOMContentLoaded] was still to come, it then fires, once. *)
Definition page_load (e : Env) (c : NavConnection) (d : Document) : Page :=
  let p := report (script (fresh_page e c d)) in
  if awaits_DOMContentLoaded e
  then dispatchEvent TDocument DOMContentLoaded p
  else p.

Inductive Event :=
| Intersection (entries : list Entry)
| ImgLoaded (i : nat)
| ImgFailed (i : nat)
| PointerEnter (j : nat)
| ConnectionChange (effectiveType : string)
| Scroll
| TouchStart
| AnimationFrame
| WindowLoad.

(** The platform reports intersection changes of observed targets only. *)
Definition deliver (entries : list Entry) (p : Page) : Page :=
  imageObserver (filter (λ en, bool_decide (target en ∈ observed p)) entries) p.

Definition step (ev : Event) (p : Page) : Page :=
  match ev with
  | Intersection entries => deliver entries p
  | ImgLoaded i => dispatchEvent (TImg i) load p
  | ImgFailed i => dispatchEvent (TImg i) error p
  | PointerEnter j => dispatchEvent (TAnchor j) mouseenter p
  | ConnectionChange ty =>
      match connection p with
      | NetworkInformation _ =>
          dispatchEvent TConnection change (set_connection (NetworkInformation ty) p)
      | NotInNavigator | NullishConnection => p
      end
  | Scroll => dispatchEvent TWindow scroll p
  | TouchStart => dispatchEvent TDocument touchstart p
  | AnimationFrame =>
      forEach (raf_queue p) run_raf (set_raf_queue (λ _, []) p)
  | WindowLoad => dispatchEvent TWindow load p
  end.

Definition run (evs : list Event) (p : Page) : Page := forEach evs step p.

(** * Vocabulary of the properties *)

(** ** The registrations the script makes, by name *)

Definition observe_reg : Registration :=
  mkReg TDocument DOMContentLoaded ObserveLazyImages false.

Definition aos_reg : Registration := mkReg TDocument DOMContentLoaded ConfigureAOS false.

Definition init_reg : Registration := mkReg TDocument DOMContentLoaded Init false.

Definition fade_reg (i : nat) : Registration := mkReg (TImg i) load FadeIn false.

Definition error_reg (i : nat) : Registration := mkReg (TImg i) error MarkError false.

Definition touch_reg : Registration := mkReg TDocument touchstart NoopTouch false.

Definition scroll_reg : Registration := mkReg TWindow scroll ThrottleScroll false.

Definition change_reg : Registration := mkReg TConnection change NetworkChange false.

Definition prefetch_reg (j : nat) : Registration :=
  mkReg (TAnchor j) mouseenter PrefetchOnEnter true.

Definition measure_reg (i : nat) : Registration :=
  mkReg (TImg i) load MeasureSize false.

Definition report_reg : Registration := mkReg TWindow load ReportLargeImages false.

(** ** The page right after loading, in closed form *)

(** [progressiveImageLoad]: which elements are marked and which listeners
    are added, as functions of the images the loop starts from. *)
Definition mark_complete (l : list nat) (ims : list Img) : list Img :=
  foldl (λ acc i,
    if from_option img_complete false (acc !! i)
    then alter (with_classList (ClassList.add "loaded")) i acc else acc) ims l.

Definition tracking_regs (l : list nat) (ims : list Img) : list Registration :=
  flat_map (λ i, if from_option img_complete false (ims !! i) then []
                 else [fade_reg i; error_reg i]) l.

Definition dcl_regs (e : Env) : list Registration :=
  (if has_IntersectionObserver e then [observe_reg] else []) ++ [aos_reg]
  ++ match readyState e with Loading => [init_reg] | _ => [] end.

Definition is_loading (e : Env) : bool :=
  match readyState e with Loading => true | _ => false end.

Definition is_nullish (c : NavConnection) : bool :=
  match c with NullishConnection => true | _ => false end.

Definition network_regs (c : NavConnection) : list Registration :=
  match c with NetworkInformation _ => [change_reg] | _ => [] end.

(** The listeners [init] registers, in order; with a nullish connection
    [init] stops at [adaptToNetworkCondition]. *)
Definition init_regs (e : Env) (c : NavConnection) (ims : list Img)
    (ans : list Anchor) : list Registration :=
  tracking_regs (select is_lazy ims) ims ++
  ((if has_ontouchstart e then [touch_reg] else []) ++ [scroll_reg]) ++
  match c with
  | NullishConnection => []
  | _ =>
      network_regs c ++
      (prefetch_reg <$> select is_html_link ans) ++
      (if localhost e then
         (measure_reg <$> select is_png_or_jpg (mark_complete (select is_lazy ims) ims))
         ++ [report_reg]
       else [])
  end.

(** The page [init] leaves behind, whether it completes or throws. *)
Definition init_state (p : Page) : Page :=
  {| env := env p;
     connection := connection p;
     imgs := mark_complete (select is_lazy (imgs p)) (imgs p);
     anchors := anchors p;
     body_classList :=
       match connection p with
       | NetworkInformation effectiveType =>
           if low_bandwidth effectiveType
           then ClassList.add "low-bandwidth" (body_classList p)
           else body_classList p
       | _ => body_classList p
       end;
     head := head p;
     listeners := listeners p ++ init_regs (env p) (connection p) (imgs p) (anchors p);
     observed := observed p;
     ticking := false;
     raf_queue := raf_queue p;
     largeImages :=
       if localhost (env p) && negb (is_nullish (connection p))
       then [] else largeImages p;
     aos_calls := aos_calls p;
     console := console p;
     src_assignments := src_assignments p;
     uncaught := uncaught p |}.

(** The page [page_load] returns. *)
Definition loaded_page (e : Env) (c : NavConnection) (d : Document) : Page :=
  {| env := e;
     connection := c;
     imgs := mark_complete (select is_lazy (d_imgs d)) (d_imgs d);
     anchors := d_anchors d;
     body_classList :=
       match c with
       | NetworkInformation effectiveType =>
           if low_bandwidth effectiveType
           then ClassList.add "low-bandwidth" (d_body_class d)
           else d_body_class d
       | _ => d_body_class d
       end;
     head := d_head d ++
             (if is_loading e || negb (is_nullish c) then [StyleNode] else []);
     listeners := dcl_regs e ++ init_regs e c (d_imgs d) (d_anchors d);
     observed :=
       if awaits_DOMContentLoaded e && has_IntersectionObserver e
       then list_to_set (select has_data_src (d_imgs d)) else ∅;
     ticking := false;
     raf_queue := [];
     largeImages := [];
     aos_calls :=
       if awaits_DOMContentLoaded e && has_AOS e
          && (isMobile (userAgent e) || isSlowConnection c)
       then [aos_config (isSlowConnection c)] else [];
     console := [];
     src_assignments := [];
     uncaught := if is_nullish c then [nullish_error] else [] |}.

(** ** Images and the observer *)

(** An element with its class list forgotten: what no handler changes. *)
Definition attributes (im : Img) : Img := with_classList (λ _, []) im.

(** The class list of image [i]. *)
Definition classes (i : nat) (p : Page) : ClassList.t :=
  from_option img_classList [] (imgs p !! i).

(** The [src] attribute of image [i]. *)
Definition src_attr (i : nat) (p : Page) : option string := imgs p !! i ≫= img_src.

(** The sources assigned to image [i] so far, oldest first. *)
Definition assignments_to (i : nat) (p : Page) : list string :=
  (filter (λ a, a.1 = i) (src_assignments p)).*2.

(** Image [i] has no pending source and is not observed. *)
Definition retired (i : nat) (p : Page) : Prop :=
  dataset_src i p = None ∧ i ∉ observed p.

(** What is known of image [i] stays as it was at [p0]. *)
Definition settled (i : nat) (p0 p : Page) : Prop :=
  dataset_src i p = None ∧ src_attr i p = src_attr i p0 ∧
  assignments_to i p = assignments_to i p0.

(** Image [i] is settled and unobserved. *)
Definition at_rest (i : nat) (p0 p : Page) : Prop :=
  settled i p0 p ∧ i ∉ observed p.

(** The images [progressiveImageLoad] registers: the node list its loop
    walks. *)
Definition registered_images (d : Document) : list nat :=
  select is_lazy (d_imgs d).

(** [ev] is a load event on image [i]. *)
Definition is_load_of (i : nat) (ev : Event) : bool :=
  match ev with ImgLoaded k => bool_decide (k = i) | _ => false end.

(** ** The listener table of a page the script set up *)

(** [r] is one of the registrations the script makes. *)
Definition known_reg (r : Registration) : bool :=
  match reg_handler r with
  | ObserveLazyImages => bool_decide (r = observe_reg)
  | ConfigureAOS => bool_decide (r = aos_reg)
  | Init => bool_decide (r = init_reg)
  | FadeIn =>
      match reg_target r with TImg i => bool_decide (r = fade_reg i) | _ => false end
  | MarkError =>
      match reg_target r with TImg i => bool_decide (r = error_reg i) | _ => false end
  | MeasureSize =>
      match reg_target r with TImg i => bool_decide (r = measure_reg i) | _ => false end
  | NoopTouch => bool_decide (r = touch_reg)
  | ThrottleScroll => bool_decide (r = scroll_reg)
  | NetworkChange => bool_decide (r = change_reg)
  | PrefetchOnEnter =>
      match reg_target r with
      | TAnchor j => bool_decide (r = prefetch_reg j)
      | _ => false
      end
  | ReportLargeImages => bool_decide (r = report_reg)
  end.

Definition script_table (p : Page) : Prop :=
  Forall (λ r, known_reg r = true) (listeners p).

(** What no event after loading changes on a page the script set up:
    the table only loses [once] listeners, nothing is thrown, class lists
    only grow, and no image appears or disappears. *)
Definition quiet (p q : Page) : Prop :=
  script_table q ∧ uncaught q = uncaught p ∧ env q = env p ∧
  anchors q = anchors p ∧
  listeners q `sublist_of` listeners p ∧
  (∀ f : Registration → bool, (∀ j, f (prefetch_reg j) = false) →
     filter (λ r, f r) (listeners q) = filter (λ r, f r) (listeners p)) ∧
  (∀ i c, c ∈ classes i p → c ∈ classes i q) ∧
  length (imgs q) = length (imgs p).

(** ** The connection and the reduced-activity flag *)

(** The page-wide reduced-activity flag: the class [low-bandwidth] on
    [document.body]. *)
Definition reduced_activity (p : Page) : bool :=
  ClassList.contains "low-bandwidth" (body_classList p).

(** The effective type of the most recent connection-change event. *)
Definition last_reported (evs : list Event) : option string :=
  foldl (λ acc ev,
    match ev with ConnectionChange ty => Some ty | _ => acc end) None evs.

(** The connection after an event: only a change event on an existing
    NetworkInformation object updates it. *)
Definition connection_after (ev : Event) (c : NavConnection) : NavConnection :=
  match ev, c with
  | ConnectionChange ty, NetworkInformation _ => NetworkInformation ty
  | _, _ => c
  end.

(** [ev] is a change event that reaches a NetworkInformation object. *)
Definition reports_change (ev : Event) (c : NavConnection) : bool :=
  match ev, c with
  | ConnectionChange _, NetworkInformation _ => true
  | _, _ => false
  end.

(** The spec's "2G-equivalent or slower", over the effective types of the
    Network Information API. *)
Definition two_g_or_slower (effectiveType : string) : bool :=
  Str.eq effectiveType "slow-2g" || Str.eq effectiveType "2g".

(** ** Counting prefetch hints *)

(** How many [mouseenter] listeners anchor [j] still has. *)
Definition armed (j : nat) (p : Page) : nat :=
  length (filter (λ r, listens (TAnchor j) mouseenter r) (listeners p)).

(** The number of nodes the events of [evs] in which the pointer enters
    anchor [j] append to [document.head], starting from [p]. *)
Fixpoint hints_for (j : nat) (evs : list Event) (p : Page) : nat :=
  match evs with
  | [] => 0
  | ev :: evs' =>
      match ev with
      | PointerEnter j' =>
          if decide (j' = j)
          then length (head (step ev p)) - length (head p) else 0
      | _ => 0
      end + hints_for j evs' (step ev p)
  end.

(** ** A page to evaluate the script on *)

Definition demo_env : Env :=
  mkEnv "Mozilla/5.0 (X11; Linux x86_64)" "example.org" true false false Loading
    (λ s, "https://example.org/" +:+ s) false.

(** A gallery page: a deferred image, an image whose [data-src] is empty,
    an eager image that is already complete, a lazy one that is, and a
    deferred image whose placeholder is already complete. *)
Definition demo_doc : Document :=
  mkDocument
    [ mkImg (Some "placeholder.png") (Some "photo.jpg") (Some "lazy") false [] 0 0 0 0;
      mkImg (Some "placeholder.png") (Some "") (Some "lazy") false [] 0 0 0 0;
      mkImg (Some "logo.png") None None true [] 40 40 40 40;
      mkImg (Some "banner.png") None (Some "lazy") true [] 300 100 300 100;
      mkImg (Some "placeholder.png") (Some "late.jpg") (Some "lazy") true [] 0 0 0 0 ]
    [ mkAnchor (Some "galeri/galeri.html"); mkAnchor (Some "#top") ]
    [] [].

Definition demo_page : Page := page_load demo_env (NetworkInformation "4g") demo_doc.

(** The demo page after another script has removed the [data-src]
    attribute of its first image, which is still observed. *)
Definition stripped_page : Page := removeAttribute_data_src 0 demo_page.

(** * Further vocabulary *)

(** The [data-src] attribute of image [i] in the markup. *)
Definition markup_data_src (d : Document) (i : nat) : option string :=
  d_imgs d !! i ≫= img_data_src.

(** The observer can have targets: it exists and [DOMContentLoaded],
    whose listener registers them, was still to come. *)
Definition observer_armed (e : Env) : bool :=
  awaits_DOMContentLoaded e && has_IntersectionObserver e.

(** [ev] is the pointer entering anchor [j]. *)
Definition is_enter_of (j : nat) (ev : Event) : bool :=
  match ev with PointerEnter k => bool_decide (k = j) | _ => false end.

(** Image [i] is as its markup left it: nothing was ever assigned to it. *)
Definition untouched (d : Document) (i : nat) (p : Page) : Prop :=
  assignments_to i p = [] ∧ src_attr i p = d_imgs d !! i ≫= img_src ∧
  dataset_src i p = markup_data_src d i.

(** Image [i] was activated exactly once, with the pending source of its
    markup, and is retired. *)
Definition activated_once (d : Document) (i : nat) (p : Page) : Prop :=
  ∃ u, assignments_to i p = [u] ∧ markup_data_src d i = Some u ∧
       Str.truthy u = true ∧ src_attr i p = Some u ∧
       dataset_src i p = None ∧ i ∉ observed p.

(** The scroll throttle is consistent: a frame callback is queued exactly
    when [ticking] is set, and never more than one. *)
Definition throttle_consistent (p : Page) : Prop :=
  raf_queue p = if ticking p then [ResetTicking] else [].

(** The image is one [checkImageSizes] selects: its [src] attribute
    contains [.png] or [.jpg]. *)
Definition measured (d : Document) (i : nat) : bool :=
  from_option is_png_or_jpg false (d_imgs d !! i).

(** The two areas of an image, as the Numbers the listener computes. *)
Definition display_area (im : Img) : N := Num.mul (width im) (height im).
Definition natural_area (im : Img) : N :=
  Num.mul (naturalWidth im) (naturalHeight im).

(** Natural area over twice the display area: the test of line 156. *)
Definition oversized (im : Img) : bool :=
  Num.gt (natural_area im) (Num.mul (display_area im) 2).

(** The record the load listener pushes for image [i] on page [p]. *)
Definition size_record (i : nat) (p : Page) : list LargeImage :=
  match imgs p !! i with
  | Some im =>
      if oversized im then
        [ {| li_src := src_of i p;
             li_natural := natural_area im;
             li_display := display_area im |} ]
      else []
  | None => []
  end.

(** What the window's load listener prints for the records [l]. *)
Definition recommendations (l : list LargeImage) : list ConsoleCall :=
  match l with
  | [] => []
  | _ =>
      [Group "Image Optimization Recommendations";
       Log ["The following images are larger than necessary:"]]
      ++ (size_line <$> l)
      ++ [Log ["Consider resizing these images to improve load time."]; GroupEnd]
  end.

(** The gallery served from the development machine: an image displayed
    at its natural size and one scaled down to a thumbnail. *)
Definition local_env : Env :=
  mkEnv "Mozilla/5.0 (X11; Linux x86_64)" "localhost" true false true Loading
    (λ s, "http://localhost/" +:+ s) false.

Definition local_doc : Document :=
  mkDocument
    [ mkImg (Some "logo.png") None (Some "lazy") false [] 40 40 40 40;
      mkImg (Some "hero.jpg") None (Some "lazy") false [] 100 50 400 200;
      mkImg (Some "icon.svg") None None false [] 10 10 100 100 ]
    [ mkAnchor (Some "index.html") ]
    ["home"] [].

(** The class list image [i] has in the markup. *)
Definition markup_classes (d : Document) (i : nat) : ClassList.t :=
  from_option img_classList [] (d_imgs d !! i).

(** The slow-connection class of the initial check. *)
Definition initially_low (c : NavConnection) : bool :=
  match c with
  | NetworkInformation effectiveType => low_bandwidth effectiveType
  | NotInNavigator | NullishConnection => false
  end.

(** A string with its ASCII capitals folded, as the [i] flag compares. *)
Fixpoint fold_string (s : string) : string :=
  match s with
  | EmptyString => EmptyString
  | String a s' => String (Str.fold_case a) (fold_string s')
  end.

(** [n] is a prefetch hint for one of the links of the markup whose
    [href] attribute contains [.html]. *)
Definition prefetch_hint (e : Env) (d : Document) (n : HeadNode) : Prop :=
  ∃ j pre post,
    d_anchors d !! j ≫= a_href = Some (pre +:+ ".html" +:+ post) ∧
    n = LinkNode "prefetch" (resolve_url e (pre +:+ ".html" +:+ post)).

(** [progressiveImageLoad] attaches its listeners to image [i]: the image
    carries [loading="lazy"] and was not complete. *)
Definition tracked (d : Document) (i : nat) : bool :=
  from_option (λ im, is_lazy im && negb (img_complete im)) false (d_imgs d !! i).

(** * Properties *)

(** Field updates evaluated innermost first, so that nested updates are
    projected away one at a time. *)
Ltac page_simpl :=
  cbv beta iota zeta delta
    [set_connection set_imgs set_body_classList set_head set_listeners
     set_observed set_ticking set_raf_queue set_largeImages set_aos_calls
     set_console set_src_assignments set_uncaught
     addEventListener alter_img classList_add assign_src
     removeAttribute_data_src appendChild_head console_call observe unobserve
     requestAnimationFrame fresh_page
     env connection imgs anchors body_classList head listeners observed
     ticking raf_queue largeImages aos_calls console src_assignments uncaught].

(** ** Loops and selectors *)

Section Loops.
Context {A : Type}.
Implicit Types (l : list A) (f : A → Page → Page) (p : Page).

Lemma forEach_nil f p : forEach [] f p = p.
Proof. reflexivity. Qed.

Lemma forEach_cons x l f p : forEach (x :: l) f p = forEach l f (f x p).
Proof. reflexivity. Qed.

Lemma forEach_app l1 l2 f p :
  forEach (l1 ++ l2) f p = forEach l2 f (forEach l1 f p).
Proof. unfold forEach. apply foldl_app. Qed.

(** A property every iteration keeps holds after the loop. *)
Lemma forEach_inv (P : Page → Prop) l f p :
  P p → (∀ x q, x ∈ l → P q → P (f x q)) → P (forEach l f p).
Proof.
  revert p. induction l as [|x l IH]; intros p Hp Hf; [exact Hp|].
  rewrite forEach_cons. apply IH.
  - apply Hf; [left | exact Hp].
  - intros y q Hy. apply Hf. by right.
Qed.

Lemma elem_of_select (sel : A → bool) l (i : nat) :
  i ∈ select sel l ↔ ∃ x, l !! i = Some x ∧ sel x = true.
Proof.
  unfold select. rewrite list_elem_of_filter, elem_of_seq. split.
  - intros [Hs [_ Hi]]. destruct (l !! i) as [x|] eqn:E; simpl in Hs.
    + exists x. split; [done|]. by destruct (sel x).
    + done.
  - intros (x & E & Hx). rewrite E. simpl. rewrite Hx. split; [done|].
    apply lookup_lt_Some in E. lia.
Qed.

Lemma NoDup_select (sel : A → bool) l : NoDup (select sel l).
Proof. unfold select. apply NoDup_filter, NoDup_seq. Qed.
End Loops.

(** ** What altering one image does to the others *)

Lemma lookup_alter_img f i j p :
  imgs (alter_img f i p) !! j =
  if decide (i = j) then f <$> imgs p !! j else imgs p !! j.
Proof.
  unfold alter_img. simpl. case_decide as E.
  - subst. apply list_lookup_alter_eq.
  - by apply list_lookup_alter_ne.
Qed.

Lemma attributes_alter_classList g i (l : list Img) :
  attributes <$> alter (with_classList g) i l = attributes <$> l.
Proof.
  revert i. induction l as [|x l IH]; intros [|i]; try done.
  change (attributes x :: (attributes <$> alter (with_classList g) i l)
          = attributes x :: (attributes <$> l)).
  f_equal. apply IH.
Qed.

Lemma attributes_lookup (l l' : list Img) (i : nat) :
  attributes <$> l = attributes <$> l' →
  (l !! i ≫= img_src) = (l' !! i ≫= img_src) ∧
  (l !! i ≫= img_data_src) = (l' !! i ≫= img_data_src).
Proof.
  intros H. assert (E : (attributes <$> l) !! i = (attributes <$> l') !! i)
    by (by rewrite H).
  rewrite !list_lookup_fmap in E.
  destruct (l !! i) as [a|], (l' !! i) as [b|]; simpl in *; try done.
  by injection E as -> -> _ _ _ _ _ _.
Qed.

(** ** The loops of the script in closed form *)

Lemma observe_all (l : list nat) (p : Page) :
  forEach l observe p = set_observed (λ s, list_to_set l ∪ s) p.
Proof.
  revert p. induction l as [|x l IH]; intros p.
  - rewrite forEach_nil. unfold set_observed. destruct p; simpl.
    f_equal. by rewrite union_empty_l_L.
  - rewrite forEach_cons, IH. unfold observe, set_observed. simpl.
    f_equal.
    by rewrite (union_comm_L {[x]} (list_to_set l)), <- union_assoc_L.
Qed.

Lemma observeLazyImages_eq (p : Page) :
  observeLazyImages p =
  set_observed (λ s, list_to_set (select has_data_src (imgs p)) ∪ s) p.
Proof. apply observe_all. Qed.

Lemma addEventListener_all (mk : nat → Registration) (l : list nat) (p : Page) :
  forEach l (λ x, addEventListener (reg_target (mk x)) (reg_type (mk x))
                    (reg_handler (mk x)) (reg_once (mk x))) p =
  set_listeners (λ ls, ls ++ (mk <$> l)) p.
Proof.
  revert p. induction l as [|x l IH]; intros p.
  - rewrite forEach_nil. unfold set_listeners. destruct p; simpl.
    f_equal. by rewrite app_nil_r.
  - rewrite forEach_cons, IH. unfold addEventListener, set_listeners. simpl.
    f_equal. rewrite <- app_assoc. by destruct (mk x).
Qed.

Lemma prefetchCriticalResources_eq (p : Page) :
  prefetchCriticalResources p =
  set_listeners (λ ls, ls ++ (prefetch_reg <$> select is_html_link (anchors p))) p.
Proof. apply (addEventListener_all prefetch_reg). Qed.

Lemma checkImageSizes_eq (p : Page) :
  checkImageSizes p =
  if localhost (env p) then
    set_listeners (λ ls, ls ++ (measure_reg <$> select is_png_or_jpg (imgs p))
                            ++ [report_reg])
      (set_largeImages (λ _, []) p)
  else p.
Proof.
  unfold checkImageSizes.
  destruct (localhost (env p)); [|done].
  cbv zeta. rewrite (addEventListener_all measure_reg).
  unfold addEventListener, set_listeners. simpl. f_equal.
  by rewrite <- app_assoc.
Qed.

Lemma console_call_all {A} (f : A → ConsoleCall) (l : list A) (p : Page) :
  forEach l (λ x, console_call (f x)) p = set_console (λ c, c ++ (f <$> l)) p.
Proof.
  revert p. induction l as [|x l IH]; intros p.
  - rewrite forEach_nil. unfold set_console. destruct p; simpl.
    f_equal. by rewrite app_nil_r.
  - rewrite forEach_cons, IH. unfold console_call, set_console. simpl.
    f_equal. by rewrite <- app_assoc.
Qed.

Lemma reportLargeImages_eq (p : Page) :
  reportLargeImages p =
  if (0 <? length (largeImages p))%nat then
    set_console (λ c, c ++
      [Group "Image Optimization Recommendations";
       Log ["The following images are larger than necessary:"]]
      ++ (size_line <$> largeImages p)
      ++ [Log ["Consider resizing these images to improve load time."]; GroupEnd]) p
  else p.
Proof.
  unfold reportLargeImages. destruct (0 <? _)%nat; [|done].
  cbv zeta. rewrite (console_call_all size_line).
  page_simpl. f_equal. by rewrite <- !app_assoc.
Qed.

Lemma complete_alter_classList g i j (ims : list Img) :
  from_option img_complete false (alter (with_classList g) i ims !! j) =
  from_option img_complete false (ims !! j).
Proof.
  destruct (decide (i = j)) as [->|Hne].
  - rewrite list_lookup_alter_eq. by destruct (ims !! j).
  - by rewrite list_lookup_alter_ne.
Qed.

Lemma tracking_regs_alter g i l (ims : list Img) :
  tracking_regs l (alter (with_classList g) i ims) = tracking_regs l ims.
Proof.
  unfold tracking_regs. induction l as [|x l IH]; [done|]. simpl.
  by rewrite complete_alter_classList, IH.
Qed.

Lemma progressiveImageLoad_loop (l : list nat) (p : Page) :
  forEach l (λ img q,
    if complete img q then classList_add img "loaded" q
    else
      addEventListener (TImg img) error MarkError false
        (addEventListener (TImg img) load FadeIn false q)) p =
  set_listeners (λ ls, ls ++ tracking_regs l (imgs p))
    (set_imgs (mark_complete l) p).
Proof.
  revert p. induction l as [|x l IH]; intros p.
  - rewrite forEach_nil. unfold set_listeners, set_imgs. destruct p; simpl.
    f_equal. by rewrite app_nil_r.
  - rewrite forEach_cons, IH. unfold complete.
    destruct (from_option img_complete false (imgs p !! x)) eqn:E.
    + unfold classList_add, alter_img, set_listeners, set_imgs. simpl.
      rewrite tracking_regs_alter, E. simpl.
      f_equal; unfold mark_complete; simpl; by rewrite ?E.
    + unfold addEventListener, set_listeners, set_imgs. simpl.
      rewrite E. f_equal; unfold mark_complete; simpl;
        by rewrite ?E, <- ?app_assoc.
Qed.

Lemma progressiveImageLoad_eq (p : Page) :
  progressiveImageLoad p =
  set_listeners (λ ls, ls ++ tracking_regs (select is_lazy (imgs p)) (imgs p))
    (set_imgs (mark_complete (select is_lazy (imgs p))) p).
Proof. apply progressiveImageLoad_loop. Qed.

Lemma optimizeTouchInteraction_eq (p : Page) :
  optimizeTouchInteraction p =
  set_listeners (λ ls, ls ++ (if has_ontouchstart (env p) then [touch_reg] else [])
                          ++ [scroll_reg])
    (set_ticking false p).
Proof.
  unfold optimizeTouchInteraction.
  destruct (has_ontouchstart (env p));
    unfold addEventListener, set_listeners, set_ticking; simpl; f_equal.
  by rewrite <- app_assoc.
Qed.

(** [init], one case per shape of [navigator.connection]: a nullish
    connection makes [adaptToNetworkCondition] throw, and the two calls
    after it never run. *)
Lemma init_eq (p : Page) :
  init p =
  let p2 := optimizeTouchInteraction (progressiveImageLoad p) in
  match connection p with
  | NotInNavigator =>
      (checkImageSizes (prefetchCriticalResources p2), Normal tt)
  | NullishConnection => (p2, Throw nullish_error)
  | NetworkInformation _ =>
      (checkImageSizes (prefetchCriticalResources
         (initial_check (addEventListener TConnection change NetworkChange false p2))),
       Normal tt)
  end.
Proof.
  assert (Hc : connection (optimizeTouchInteraction (progressiveImageLoad p))
               = connection p).
  { by rewrite optimizeTouchInteraction_eq, progressiveImageLoad_eq. }
  unfold init, adaptToNetworkCondition, mbind, Js_bind, effect, ask, throw,
    mret, Js_ret. cbv zeta. rewrite Hc.
  destruct (connection p); reflexivity.
Qed.

(** The script itself, step by step: when the document is still loading
    it only registers its three [DOMContentLoaded] listeners and appends
    the style sheet; otherwise [init] runs inside it, and an exception it
    throws skips the style sheet. *)
Lemma script_eq (e : Env) (c : NavConnection) (d : Document) :
  report (script (fresh_page e c d)) =
  let p0 := set_listeners (λ _, dcl_regs e) (fresh_page e c d) in
  if is_loading e then appendChild_head StyleNode p0
  else
    match init p0 with
    | (q, Normal _) => appendChild_head StyleNode q
    | (q, Throw x) => set_uncaught (λ l, l ++ [x]) q
    end.
Proof.
  unfold is_loading, dcl_regs, script, mbind, Js_bind, effect, ask, mret, Js_ret.
  destruct e as [ua hn io aos touch rs res dfr]; simpl.
  destruct io, rs; simpl; try reflexivity.
  all: unfold addEventListener, set_listeners, fresh_page, observe_reg, aos_reg; simpl.
  all: match goal with |- context [init ?p] => destruct (init p) as [q [[]|x]] end;
    reflexivity.
Qed.

(** Loading a page, step by step: when the document is still loading the
    three [DOMContentLoaded] listeners run in registration order after the
    style sheet is appended; otherwise [init] has run inside the script,
    and the event, if it is still to come, finds the other two. *)
Lemma page_load_eq (e : Env) (c : NavConnection) (d : Document) :
  page_load e c d =
  let p0 := set_listeners (λ _, dcl_regs e) (fresh_page e c d) in
  if is_loading e then
    let p1 := appendChild_head StyleNode p0 in
    let p2 := if has_IntersectionObserver e then observeLazyImages p1 else p1 in
    report (init (configureAOS p2))
  else
    let q := match init p0 with
             | (q, Normal _) => appendChild_head StyleNode q
             | (q, Throw x) => set_uncaught (λ l, l ++ [x]) q
             end in
    if awaits_DOMContentLoaded e
    then dispatchEvent TDocument DOMContentLoaded q else q.
Proof.
  unfold page_load. rewrite script_eq.
  destruct e as [ua hn io aos touch rs res dfr].
  destruct rs; [|reflexivity..].
  destruct io; reflexivity.
Qed.

(** ** What the handlers leave alone *)

Lemma attributes_mark_complete (l : list nat) (ims : list Img) :
  attributes <$> mark_complete l ims = attributes <$> ims.
Proof.
  unfold mark_complete. revert ims.
  induction l as [|x l IH]; intros ims; simpl; [done|].
  rewrite IH. destruct (from_option img_complete false (ims !! x)); [|done].
  apply attributes_alter_classList.
Qed.

(** No handler touches an attribute of an image or assigns a source; only
    [ObserveLazyImages] adds observations, and only of images that carry
    the [data-src] attribute. *)
Lemma run_handler_images (h : Handler) (this : Target) (p : Page) :
  let q := report (run_handler h this p) in
  attributes <$> imgs q = attributes <$> imgs p ∧
  src_assignments q = src_assignments p ∧
  observed q =
    match h with
    | ObserveLazyImages => list_to_set (select has_data_src (imgs p)) ∪ observed p
    | _ => observed p
    end.
Proof.
  destruct h; cbn [run_handler]; unfold effect, report; cbv zeta.
  - rewrite observeLazyImages_eq. done.
  - unfold configureAOS. destruct (has_AOS (env p)); [|done].
    by destruct (isMobile _ || isSlowConnection _).
  - destruct this; simpl; try done.
    by rewrite attributes_alter_classList.
  - destruct this; simpl; try done.
    by rewrite attributes_alter_classList.
  - done.
  - unfold throttleScroll. by destruct (negb _).
  - unfold networkChange. destruct (connection p); try done.
    by destruct (low_bandwidth _).
  - by destruct this.
  - destruct this; simpl; try done.
    destruct (imgs p !! i); [|done]. by destruct (Num.gt _ _).
  - rewrite reportLargeImages_eq. by destruct (0 <? _)%nat.
  - rewrite init_eq. cbv zeta.
    rewrite optimizeTouchInteraction_eq, progressiveImageLoad_eq.
    destruct (connection p) eqn:Hc.
    + rewrite prefetchCriticalResources_eq, checkImageSizes_eq.
      destruct (localhost _); simpl; by rewrite attributes_mark_complete.
    + simpl. by rewrite attributes_mark_complete.
    + rewrite prefetchCriticalResources_eq, checkImageSizes_eq.
      unfold initial_check. simpl. rewrite Hc.
      destruct (low_bandwidth _), (localhost _); simpl;
        by rewrite attributes_mark_complete.
Qed.

Lemma invoke_images (r : Registration) (p : Page) :
  let q := invoke r p in
  attributes <$> imgs q = attributes <$> imgs p ∧
  src_assignments q = src_assignments p ∧
  observed q =
    match reg_handler r with
    | ObserveLazyImages => list_to_set (select has_data_src (imgs p)) ∪ observed p
    | _ => observed p
    end.
Proof.
  unfold invoke. cbv zeta.
  destruct (run_handler_images (reg_handler r) (reg_target r)
              (if reg_once r then set_listeners (remove_first r) p else p))
    as (H1 & H2 & H3).
  rewrite H1, H2, H3. by destruct (reg_once r).
Qed.

(** ** The observer callback *)

Lemma assignments_to_snoc i j u p :
  assignments_to i (set_src_assignments (λ l, l ++ [(j, u)]) p) =
  assignments_to i p ++ (if decide (j = i) then [u] else []).
Proof.
  unfold assignments_to. simpl. rewrite filter_app, fmap_app. f_equal.
  rewrite filter_cons, filter_nil. simpl. by repeat case_decide.
Qed.

Lemma imageObserver_entry_other (en : Entry) (i : nat) (p : Page) :
  target en ≠ i →
  let q := imageObserver_entry en p in
  imgs q !! i = imgs p !! i ∧ (i ∈ observed q ↔ i ∈ observed p) ∧
  assignments_to i q = assignments_to i p.
Proof.
  intros Hne. unfold imageObserver_entry.
  destruct (isIntersecting en); [|done]. cbv zeta.
  destruct (dataset_src (target en) p) as [u|]; [destruct (Str.truthy u)|].
  - unfold unobserve, removeAttribute_data_src, assign_src.
    split; [|split].
    + simpl. by rewrite !list_lookup_alter_ne.
    + simpl. set_solver.
    + change (assignments_to i
                (set_src_assignments (λ l, l ++ [(target en, u)]) p)
              = assignments_to i p).
      rewrite assignments_to_snoc. case_decide; [done|]. apply app_nil_r.
  - unfold unobserve. simpl. set_solver.
  - unfold unobserve. simpl. set_solver.
Qed.

Lemma imageObserver_entry_activate (i : nat) (u : string) (p : Page) :
  dataset_src i p = Some u → Str.truthy u = true →
  let q := imageObserver_entry (mkEntry i true) p in
  src_attr i q = Some u ∧ retired i q ∧
  assignments_to i q = assignments_to i p ++ [u].
Proof.
  intros Hd Ht. unfold imageObserver_entry. simpl. rewrite Hd, Ht.
  assert (∃ im, imgs p !! i = Some im) as [im Him].
  { unfold dataset_src in Hd. destruct (imgs p !! i); [eauto|done]. }
  unfold src_attr, retired, dataset_src, unobserve, removeAttribute_data_src,
    assign_src. simpl.
  rewrite !list_lookup_alter_eq, Him. simpl. repeat split; [set_solver|].
  change (assignments_to i (set_src_assignments (λ l, l ++ [(i, u)]) p)
          = assignments_to i p ++ [u]).
  rewrite assignments_to_snoc. by case_decide.
Qed.

(** On a retired image the callback changes nothing at all. *)
Lemma imageObserver_entry_retired (en : Entry) (p : Page) :
  retired (target en) p → imageObserver_entry en p = p.
Proof.
  intros [Hd Ho]. unfold imageObserver_entry.
  destruct (isIntersecting en); [|done]. cbv zeta. rewrite Hd.
  unfold unobserve, set_observed. destruct p; simpl in *. f_equal.
  apply difference_disjoint_L. set_solver.
Qed.

(** The callback never restores a marker, and once an image is unobserved
    it stays so. *)
Lemma imageObserver_entry_settled (en : Entry) (i : nat) (p0 p : Page) :
  settled i p0 p →
  settled i p0 (imageObserver_entry en p) ∧
  (i ∉ observed p → i ∉ observed (imageObserver_entry en p)) ∧
  (en = mkEntry i true → i ∉ observed (imageObserver_entry en p)).
Proof.
  intros (Hd & Hs & Ha).
  destruct (decide (target en = i)) as [<-|Hne].
  - assert (imgs (imageObserver_entry en p) = imgs p ∧
            src_assignments (imageObserver_entry en p) = src_assignments p ∧
            observed (imageObserver_entry en p) ⊆ observed p ∧
            (isIntersecting en = true →
             target en ∉ observed (imageObserver_entry en p)))
      as (Hi & Hl & Ho & Hx).
    { unfold imageObserver_entry. destruct (isIntersecting en); [|done].
      cbv zeta. rewrite Hd. unfold unobserve. simpl.
      repeat split; set_solver. }
    unfold settled, dataset_src, src_attr, assignments_to in *.
    rewrite Hi, Hl. repeat split; try done.
    + set_solver.
    + intros Heq. apply Hx. by rewrite Heq.
  - destruct (imageObserver_entry_other en i p Hne) as (Hi & Ho & Hl).
    unfold settled, dataset_src, src_attr in *. rewrite Hi, Hl.
    repeat split; try done.
    + by rewrite Ho.
    + intros ->. done.
Qed.

Lemma imageObserver_settled (es : list Entry) (i : nat) (p0 p : Page) :
  settled i p0 p →
  settled i p0 (imageObserver es p) ∧
  (i ∉ observed p ∨ mkEntry i true ∈ es → i ∉ observed (imageObserver es p)).
Proof.
  unfold imageObserver. revert p.
  induction es as [|en es IH]; intros p Hs.
  - rewrite forEach_nil. split; [done|]. intros [?|H]; [done|].
    by apply elem_of_nil in H.
  - rewrite forEach_cons.
    destruct (imageObserver_entry_settled en i p0 p Hs) as (Hs' & Hk & Hx).
    destruct (IH _ Hs') as [IH1 IH2]. split; [done|].
    intros [Ho|Hin]; apply IH2.
    + left. by apply Hk.
    + apply elem_of_cons in Hin as [<-|Hin]; [left; by apply Hx | by right].
Qed.

Lemma imageObserver_retired (es : list Entry) (i : nat) (p0 p : Page) :
  settled i p0 p → i ∉ observed p →
  settled i p0 (imageObserver es p) ∧ retired i (imageObserver es p).
Proof.
  intros Hs Ho. destruct (imageObserver_settled es i p0 p Hs) as [H1 H2].
  split; [done|]. split; [apply H1 | apply H2; by left].
Qed.

(** A batch that contains an intersecting entry for an image with a
    non-empty pending source activates it, exactly once. *)
Lemma imageObserver_pending (es : list Entry) (i : nat) (u : string) (p : Page) :
  dataset_src i p = Some u → Str.truthy u = true → mkEntry i true ∈ es →
  let q := imageObserver es p in
  src_attr i q = Some u ∧ retired i q ∧
  assignments_to i q = assignments_to i p ++ [u].
Proof.
  unfold imageObserver. revert p.
  induction es as [|en es IH]; intros p Hd Ht Hin.
  { by apply elem_of_nil in Hin. }
  cbv zeta. rewrite forEach_cons.
  destruct (decide (en = mkEntry i true)) as [->|Hne].
  - destruct (imageObserver_entry_activate i u p Hd Ht) as (Hs & Hr & Ha).
    set (q := imageObserver_entry (mkEntry i true) p) in *.
    destruct (imageObserver_retired es i q q) as [(_ & Hs' & Ha') Hr'].
    { destruct Hr. by repeat split. }
    { apply Hr. }
    fold (imageObserver es q). rewrite Hs', Ha'. done.
  - apply elem_of_cons in Hin as [Heq|Hin]; [congruence|].
    assert (dataset_src i (imageObserver_entry en p) = Some u ∧
            assignments_to i (imageObserver_entry en p) = assignments_to i p)
      as [Hd' Ha'].
    { destruct (decide (target en = i)) as [Hti|Hti].
      - assert (isIntersecting en = false) as Hf.
        { destruct en as [t [|]]; simpl in *; congruence. }
        unfold imageObserver_entry. by rewrite Hf.
      - destruct (imageObserver_entry_other en i p Hti) as (Hi & _ & Hl).
        unfold dataset_src. by rewrite Hi. }
    destruct (IH _ Hd' Ht Hin) as (H1 & H2 & H3). cbv zeta in *.
    by rewrite <- Ha'.
Qed.

(** ** A retired image stays retired, whatever happens on the page *)

Lemma at_rest_frame (i : nat) (p0 p q : Page) :
  imgs q = imgs p → src_assignments q = src_assignments p →
  observed q = observed p → at_rest i p0 p → at_rest i p0 q.
Proof.
  unfold at_rest, settled, dataset_src, src_attr, assignments_to.
  by intros -> -> ->.
Qed.

Lemma invoke_at_rest (r : Registration) (i : nat) (p0 p : Page) :
  at_rest i p0 p → at_rest i p0 (invoke r p).
Proof.
  intros [(Hd & Hs & Ha) Ho].
  destruct (invoke_images r p) as (Hi & Hl & Hobs).
  destruct (attributes_lookup _ _ i Hi) as [Hsrc Hdata].
  unfold at_rest, settled, dataset_src, src_attr, assignments_to in *.
  rewrite Hsrc, Hdata, Hl. repeat split; try done.
  rewrite Hobs. destruct (reg_handler r); try done.
  rewrite elem_of_union, elem_of_list_to_set, elem_of_select.
  intros [(im & Him & Hsel)|?]; [|done].
  rewrite Him in Hd. simpl in Hd. unfold has_data_src in Hsel.
  rewrite Hd in Hsel. apply bool_decide_eq_true in Hsel.
  by destruct Hsel.
Qed.

Lemma dispatchEvent_at_rest (t : Target) (ty : EventType) (i : nat) (p0 p : Page) :
  at_rest i p0 p → at_rest i p0 (dispatchEvent t ty p).
Proof.
  intros H. unfold dispatchEvent. apply forEach_inv; [done|].
  intros r q _. apply invoke_at_rest.
Qed.

Lemma step_at_rest (ev : Event) (i : nat) (p0 p : Page) :
  at_rest i p0 p → at_rest i p0 (step ev p).
Proof.
  intros H. destruct ev; simpl; try by apply dispatchEvent_at_rest.
  - unfold deliver. destruct H as [Hs Ho].
    destruct (imageObserver_retired
                (filter (λ en, bool_decide (target en ∈ observed p)) entries)
                i p0 p Hs Ho) as [H1 [_ H2]].
    by split.
  - destruct (connection p); try done.
    apply dispatchEvent_at_rest. revert H. by apply at_rest_frame.
  - apply forEach_inv.
    + revert H. by apply at_rest_frame.
    + intros [] q _. by apply at_rest_frame.
Qed.

Lemma run_at_rest (evs : list Event) (i : nat) (p0 p : Page) :
  at_rest i p0 p → at_rest i p0 (run evs p).
Proof.
  intros H. unfold run. apply forEach_inv; [done|].
  intros ev q _. apply step_at_rest.
Qed.

Lemma deliver_retired (es : list Entry) (i : nat) (p : Page) :
  retired i p → Forall (λ en, target en = i) es →
  imageObserver es p = p ∧ deliver es p = p.
Proof.
  intros Hr Hall.
  assert (Hk : ∀ l, Forall (λ en, target en = i) l → imageObserver l p = p).
  { intros l Hl. unfold imageObserver. apply (forEach_inv (λ q, q = p)); [done|].
    intros en q Hen ->. apply imageObserver_entry_retired.
    rewrite Forall_forall in Hl. by rewrite (Hl en Hen). }
  split; [by apply Hk|]. unfold deliver. apply Hk.
  rewrite Forall_forall in *. intros en Hen.
  apply list_elem_of_filter in Hen as [_ Hen]. by apply Hall.
Qed.

(** ** Activation of deferred images: C1, C2, C10 *)

(** C1 (as amended).  For every image whose [data-src] attribute holds a
    non-empty string, when the observer callback receives a batch that
    reports the image as intersecting, afterwards the [src] attribute
    equals the previously pending source, the [data-src] attribute is
    gone, and the image is no longer observed; the same holds when the
    platform delivers the batch for an observed image. *)
Theorem activation_on_intersection
    (p : Page) (entries : list Entry) (i : nat) (u : string) :
  dataset_src i p = Some u → Str.truthy u = true →
  mkEntry i true ∈ entries →
  (let q := imageObserver entries p in
   src_attr i q = Some u ∧ dataset_src i q = None ∧ i ∉ observed q) ∧
  (i ∈ observed p →
   let q := step (Intersection entries) p in
   src_attr i q = Some u ∧ dataset_src i q = None ∧ i ∉ observed q).
Proof.
  intros Hd Ht Hin. split.
  - destruct (imageObserver_pending entries i u p Hd Ht Hin) as (H1 & [H2 H3] & _).
    done.
  - intros Ho. simpl. unfold deliver.
    destruct (imageObserver_pending
                (filter (λ en, bool_decide (target en ∈ observed p)) entries)
                i u p Hd Ht) as (H1 & [H2 H3] & _); [|done].
    apply list_elem_of_filter. split; [|done]. simpl.
    by apply bool_decide_pack.
Qed.

(** The first image of the demo page is activated by its first intersecting
    entry. *)
Lemma activation_on_intersection_witness :
  (dataset_src 0 demo_page = Some "photo.jpg" ∧
   Str.truthy "photo.jpg" = true ∧
   mkEntry 0 true ∈ [mkEntry 0 true]) ∧
  (let q := imageObserver [mkEntry 0 true] demo_page in
   src_attr 0 q = Some "photo.jpg" ∧ dataset_src 0 q = None ∧ 0 ∉ observed q) ∧
  (0 ∈ observed demo_page →
   let q := step (Intersection [mkEntry 0 true]) demo_page in
   src_attr 0 q = Some "photo.jpg" ∧ dataset_src 0 q = None ∧ 0 ∉ observed q).
Proof.
  split; [split; [reflexivity | split; [reflexivity | constructor]] |].
  apply (activation_on_intersection demo_page [mkEntry 0 true] 0 "photo.jpg");
    [reflexivity | reflexivity | constructor].
Defined.

(** C1, as stated, fails: an image whose [data-src] attribute is present
    but empty is observed like any other, yet when it is reported as
    intersecting its [src] is not assigned and the attribute stays. *)
Lemma empty_marker_not_activated :
  has_data_src (mkImg (Some "placeholder.png") (Some "") (Some "lazy") false [] 0 0 0 0)
    = true ∧
  dataset_src 1 demo_page = Some "" ∧
  1 ∈ observed demo_page ∧
  let q := step (Intersection [mkEntry 1 true]) demo_page in
  ¬ (src_attr 1 q = Some "" ∧ dataset_src 1 q = None).
Proof.
  split; [reflexivity|]. split; [reflexivity|]. split.
  - apply (bool_decide_unpack _). vm_compute. exact I.
  - cbv zeta. intros [H _]. vm_compute in H. discriminate H.
Qed.

(** C2.  Activation is idempotent.  Once the callback has activated an
    image (one assignment of its source), then after any further events
    whatsoever, handing the callback any batch of entries about that image
    again, or having the platform deliver one, leaves the whole page
    unchanged: no second assignment is made, because the marker is gone
    and the image is no longer observed. *)
Theorem activation_idempotent
    (p : Page) (i : nat) (u : string) (evs : list Event) (again : list Entry) :
  dataset_src i p = Some u → Str.truthy u = true →
  Forall (λ en, target en = i) again →
  let q := imageObserver [mkEntry i true] p in
  let r := run evs q in
  assignments_to i q = assignments_to i p ++ [u] ∧
  imageObserver again r = r ∧
  step (Intersection again) r = r ∧
  assignments_to i r = assignments_to i q ∧
  dataset_src i r = None ∧ i ∉ observed r.
Proof.
  intros Hd Ht Hall q r.
  destruct (imageObserver_pending [mkEntry i true] i u p Hd Ht) as (Hs & Hr & Ha);
    [constructor|].
  fold q in Hs, Hr, Ha.
  assert (Hrest : at_rest i q r).
  { apply run_at_rest. destruct Hr. by repeat split. }
  destruct Hrest as [(Hd' & _ & Ha') Ho'].
  destruct (deliver_retired again i r (conj Hd' Ho') Hall) as [H1 H2].
  by repeat split.
Qed.

(** The first image of the demo page, activated, then reported twice more
    after a load event and a scroll. *)
Lemma activation_idempotent_witness :
  (dataset_src 0 demo_page = Some "photo.jpg" ∧
   Str.truthy "photo.jpg" = true ∧
   Forall (λ en, target en = 0) [mkEntry 0 true; mkEntry 0 true]) ∧
  let q := imageObserver [mkEntry 0 true] demo_page in
  let r := run [ImgLoaded 0; Scroll] q in
  assignments_to 0 q = assignments_to 0 demo_page ++ ["photo.jpg"] ∧
  imageObserver [mkEntry 0 true; mkEntry 0 true] r = r ∧
  step (Intersection [mkEntry 0 true; mkEntry 0 true]) r = r ∧
  assignments_to 0 r = assignments_to 0 q ∧
  dataset_src 0 r = None ∧ 0 ∉ observed r.
Proof.
  split.
  - split; [reflexivity | split; [reflexivity | repeat constructor]].
  - apply (activation_idempotent demo_page 0 "photo.jpg" [ImgLoaded 0; Scroll]
             [mkEntry 0 true; mkEntry 0 true]);
      [reflexivity | reflexivity | repeat constructor].
Defined.

(** C10.  When an intersecting entry is delivered for an observed image
    that carries no [data-src] attribute, the [src] attribute of the image
    is left as it was and its observation is ended; through every later
    sequence of events the image stays unobserved, its [src] stays the
    same and no source is ever assigned to it. *)
Theorem unmarked_image_retired
    (p : Page) (entries : list Entry) (i : nat) (evs : list Event) :
  i ∈ observed p → dataset_src i p = None → mkEntry i true ∈ entries →
  let q := step (Intersection entries) p in
  let r := run evs q in
  src_attr i q = src_attr i p ∧ (i ∉ observed q) ∧
  src_attr i r = src_attr i p ∧ (i ∉ observed r) ∧
  assignments_to i r = assignments_to i p.
Proof.
  intros Ho Hd Hin q r.
  assert (Hq : at_rest i p q).
  { unfold q. simpl. unfold deliver.
    destruct (imageObserver_settled
                (filter (λ en, bool_decide (target en ∈ observed p)) entries)
                i p p) as [H1 H2]; [done|].
    split; [done|]. apply H2. right.
    apply list_elem_of_filter. split; [|done]. simpl. by apply bool_decide_pack. }
  assert (Hr : at_rest i p r) by by apply run_at_rest.
  destruct Hq as [(_ & Hq1 & _) Hq2], Hr as [(_ & Hr1 & Hr2) Hr3].
  done.
Qed.

(** The observed image of [stripped_page], which has lost its marker. *)
Lemma unmarked_image_retired_witness :
  (0 ∈ observed stripped_page ∧ dataset_src 0 stripped_page = None ∧
   mkEntry 0 true ∈ [mkEntry 0 true]) ∧
  let q := step (Intersection [mkEntry 0 true]) stripped_page in
  let r := run [Intersection [mkEntry 0 true]; ImgLoaded 0] q in
  src_attr 0 q = src_attr 0 stripped_page ∧ (0 ∉ observed q) ∧
  src_attr 0 r = src_attr 0 stripped_page ∧ (0 ∉ observed r) ∧
  assignments_to 0 r = assignments_to 0 stripped_page.
Proof.
  assert (H : 0 ∈ observed stripped_page).
  { apply (bool_decide_unpack _). vm_compute. exact I. }
  split.
  - split; [exact H | split; [reflexivity | constructor]].
  - apply (unmarked_image_retired stripped_page [mkEntry 0 true] 0
             [Intersection [mkEntry 0 true]; ImgLoaded 0]);
      [exact H | reflexivity | constructor].
Defined.

(** ** Listeners, filtered *)

Lemma filter_none {A} (f : A → bool) (l : list A) :
  (∀ x, x ∈ l → f x = false) → filter (λ x, f x) l = [].
Proof.
  induction l as [|x l IH]; intros H; [done|].
  rewrite filter_cons, (H x) by left. simpl. apply IH.
  intros y Hy. apply H. by right.
Qed.

Lemma elem_of_tracking_regs (r : Registration) (l : list nat) (ims : list Img) :
  r ∈ tracking_regs l ims ↔
  ∃ i, i ∈ l ∧ from_option img_complete false (ims !! i) = false ∧
       (r = fade_reg i ∨ r = error_reg i).
Proof.
  unfold tracking_regs. rewrite list_elem_of_In, in_flat_map. split.
  - intros (i & Hi & Hr). exists i. apply list_elem_of_In in Hi, Hr.
    destruct (from_option img_complete false (ims !! i)).
    + by apply elem_of_nil in Hr.
    + repeat split; try done.
      apply elem_of_cons in Hr as [->|Hr]; [by left|].
      apply list_elem_of_singleton in Hr as ->. by right.
  - intros (i & Hi & Hc & Hr). exists i. rewrite <- !list_elem_of_In.
    split; [done|]. rewrite Hc. destruct Hr as [->| ->]; repeat constructor.
Qed.

(** Listeners of anything but an image: none among the tracking listeners. *)
Lemma filter_tracking_other (t : Target) (ty : EventType) (l : list nat)
    (ims : list Img) :
  (∀ i, t ≠ TImg i) →
  filter (λ r, listens t ty r) (tracking_regs l ims) = [].
Proof.
  intros Ht. apply filter_none. intros r Hr.
  apply elem_of_tracking_regs in Hr as (i & _ & _ & [->| ->]);
    unfold listens; simpl; rewrite bool_decide_eq_false_2; try done;
    intros <-; by apply (Ht i).
Qed.

Lemma filter_fmap_none (t : Target) (ty : EventType) (mk : nat → Registration)
    (l : list nat) :
  (∀ i, listens t ty (mk i) = false) →
  filter (λ r, listens t ty r) (mk <$> l) = [].
Proof.
  intros H. apply filter_none. intros r Hr.
  apply list_elem_of_fmap in Hr as (i & -> & _). apply H.
Qed.

Lemma filter_dcl_regs (t : Target) (ty : EventType) (e : Env) :
  ty ≠ DOMContentLoaded → filter (λ r, listens t ty r) (dcl_regs e) = [].
Proof.
  intros Hty. apply filter_none. intros r Hr. unfold listens.
  rewrite (bool_decide_eq_false_2 (reg_type r = ty)); [apply andb_false_r|].
  intros <-. apply Hty. unfold dcl_regs in Hr.
  repeat (apply elem_of_app in Hr as [Hr|Hr]);
    [destruct (has_IntersectionObserver e) | | destruct (readyState e)];
    repeat (apply elem_of_cons in Hr as [->|Hr]); try done;
    by apply elem_of_nil in Hr.
Qed.

(** [init] registers nothing for [DOMContentLoaded]. *)
Lemma filter_init_regs (e : Env) (c : NavConnection) (ims : list Img)
    (ans : list Anchor) :
  filter (λ r, listens TDocument DOMContentLoaded r) (init_regs e c ims ans) = [].
Proof.
  unfold init_regs. rewrite !filter_app.
  rewrite filter_tracking_other by done.
  assert (H1 : filter (λ r, listens TDocument DOMContentLoaded r)
                 (if has_ontouchstart e then [touch_reg] else []) = []).
  { by destruct (has_ontouchstart e). }
  rewrite H1.
  destruct c as [| |t]; [|done|]; rewrite !filter_app;
    rewrite (filter_fmap_none _ _ prefetch_reg) by done;
    (destruct (localhost e); [|done]);
    rewrite filter_app, (filter_fmap_none _ _ measure_reg) by done; done.
Qed.

(** The [DOMContentLoaded] listeners of the script, when [init] ran
    inside it. *)
Lemma filter_dcl_late (e : Env) :
  is_loading e = false →
  filter (λ r, listens TDocument DOMContentLoaded r) (dcl_regs e) =
  (if has_IntersectionObserver e then [observe_reg] else []) ++ [aos_reg].
Proof.
  unfold is_loading, dcl_regs. intros H.
  destruct (readyState e); [done|..]; by destruct (has_IntersectionObserver e).
Qed.

(** Selecting by [data-src] only looks at the attributes. *)
Lemma select_has_data_src (l l' : list Img) :
  attributes <$> l = attributes <$> l' →
  select has_data_src l = select has_data_src l'.
Proof.
  intros H. unfold select.
  assert (Hlen : length l = length l').
  { by rewrite <- (length_fmap attributes l), H, length_fmap. }
  rewrite Hlen. apply list_filter_iff. intros i.
  destruct (attributes_lookup l l' i H) as [_ Hd].
  assert (Hs : ∀ ims : list Img,
            from_option has_data_src false (ims !! i) =
            bool_decide (is_Some (ims !! i ≫= img_data_src))).
  { intros ims. by destruct (ims !! i). }
  by rewrite !Hs, Hd.
Qed.

(** ** The loaded page *)

Lemma init_closed (p : Page) :
  init p =
  (init_state p,
   if is_nullish (connection p) then Throw nullish_error else Normal tt).
Proof.
  rewrite init_eq. cbv zeta.
  rewrite optimizeTouchInteraction_eq, progressiveImageLoad_eq.
  rewrite prefetchCriticalResources_eq, checkImageSizes_eq.
  rewrite prefetchCriticalResources_eq, checkImageSizes_eq.
  unfold init_state, init_regs, network_regs, initial_check.
  destruct p as [e c ims ans body hd ls obs tk raf large aos con asg unc].
  page_simpl.
  destruct c as [| |t]; cbn [is_nullish negb andb].
  - destruct (localhost e); page_simpl; cbn [andb];
      rewrite <- ?app_assoc; cbn [app]; by rewrite ?app_nil_r.
  - rewrite andb_false_r, <- ?app_assoc. cbn [app]. by rewrite ?app_nil_r.
  - destruct (low_bandwidth t); page_simpl; destruct (localhost e);
      page_simpl; cbn [andb];
      rewrite <- ?app_assoc; cbn [app]; by rewrite ?app_nil_r.
Qed.

(** [DOMContentLoaded] after [init] ran inside the script: the two
    listeners of the script run, in registration order. *)
Lemma dispatch_dcl_late (q : Page) (e : Env) (c : NavConnection)
    (ims : list Img) (ans : list Anchor) :
  listeners q = dcl_regs e ++ init_regs e c ims ans → is_loading e = false →
  dispatchEvent TDocument DOMContentLoaded q =
  configureAOS (if has_IntersectionObserver e then observeLazyImages q else q).
Proof.
  intros Hl He. unfold dispatchEvent.
  rewrite Hl, filter_app, filter_init_regs, filter_dcl_late, app_nil_r by done.
  by destruct (has_IntersectionObserver e).
Qed.

Lemma page_load_closed (e : Env) (c : NavConnection) (d : Document) :
  page_load e c d = loaded_page e c d.
Proof.
  rewrite page_load_eq. cbv zeta. rewrite !init_closed.
  assert (Hl : ∀ (b : bool) (l : list LargeImage), (if b then l else l) = l)
    by (by intros []).
  assert (Hlate : is_loading e = false →
    (let q := if is_nullish c
              then set_uncaught (λ l, l ++ [nullish_error])
                     (init_state (set_listeners (λ _, dcl_regs e) (fresh_page e c d)))
              else appendChild_head StyleNode
                     (init_state (set_listeners (λ _, dcl_regs e) (fresh_page e c d)))
     in if awaits_DOMContentLoaded e
        then dispatchEvent TDocument DOMContentLoaded q else q) =
    loaded_page e c d).
  { intros He. cbv zeta. destruct (awaits_DOMContentLoaded e) eqn:Hw.
    - rewrite (dispatch_dcl_late _ e c (d_imgs d) (d_anchors d));
        [|by destruct (is_nullish c)|done].
      unfold loaded_page. rewrite He, Hw. cbn [andb orb].
      assert (Hsel : select has_data_src
                       (mark_complete (select is_lazy (d_imgs d)) (d_imgs d)) =
                     select has_data_src (d_imgs d)).
      { apply select_has_data_src, attributes_mark_complete. }
      destruct c as [| |t]; cbn [is_nullish negb];
        destruct (has_IntersectionObserver e); rewrite ?observeLazyImages_eq;
        unfold init_state, configureAOS, aos_config; page_simpl;
        (destruct (has_AOS e); cbn [andb];
         [match goal with
          | |- context [isMobile ?u || ?b] => destruct (isMobile u || b)
          end|]);
        page_simpl; cbn [app];
        by rewrite ?Hsel, ?Hl, ?app_nil_r, ?union_empty_r_L.
    - unfold loaded_page, init_state. rewrite He, Hw. cbn [andb orb].
      destruct c; cbn [is_nullish negb]; page_simpl;
        cbn [app]; by rewrite ?Hl, ?app_nil_r. }
  destruct (is_loading e) eqn:He.
  - rewrite ?observeLazyImages_eq.
    unfold loaded_page, init_state, report, configureAOS, aos_config.
    assert (Hw : awaits_DOMContentLoaded e = true).
    { unfold awaits_DOMContentLoaded, is_loading in *. by destruct (readyState e). }
    rewrite He, Hw. cbn [andb orb negb].
    destruct (has_IntersectionObserver e); page_simpl.
    + destruct (has_AOS e); cbn [andb];
        [destruct (isMobile (userAgent e) || isSlowConnection c)|];
        page_simpl; destruct c; cbn [is_nullish]; page_simpl;
        cbn [app]; by rewrite ?Hl, ?app_nil_r, ?union_empty_r_L.
    + destruct (has_AOS e); cbn [andb];
        [destruct (isMobile (userAgent e) || isSlowConnection c)|];
        page_simpl; destruct c; cbn [is_nullish]; page_simpl;
        cbn [app]; by rewrite ?Hl, ?app_nil_r.
  - rewrite <- (Hlate eq_refl). cbv zeta.
    change (connection (set_listeners (λ _, dcl_regs e) (fresh_page e c d))) with c.
    by destruct (is_nullish c).
Qed.

(** ** Dispatch on a table the script set up *)

Lemma known_reg_cases (r : Registration) :
  known_reg r = true →
  r = observe_reg ∨ r = aos_reg ∨ r = init_reg ∨
  (∃ i, r = fade_reg i ∨ r = error_reg i ∨ r = measure_reg i) ∨
  r = touch_reg ∨ r = scroll_reg ∨ r = change_reg ∨
  (∃ j, r = prefetch_reg j) ∨ r = report_reg.
Proof.
  unfold known_reg. destruct r as [t ty h o]. simpl.
  destruct h; try destruct t; try discriminate;
    intros H; apply bool_decide_eq_true in H; rewrite H; eauto 12.
Qed.

(** Outside [DOMContentLoaded], what a known listener does when invoked. *)
Lemma invoke_known (r : Registration) (p : Page) :
  known_reg r = true → reg_type r ≠ DOMContentLoaded →
  (∃ i, r = fade_reg i ∧ invoke r p = classList_add i "loaded" p) ∨
  (∃ i, r = error_reg i ∧ invoke r p = markError (TImg i) p) ∨
  (∃ i, r = measure_reg i ∧ invoke r p = measureSize (TImg i) p) ∨
  (r = touch_reg ∧ invoke r p = p) ∨
  (r = scroll_reg ∧ invoke r p = throttleScroll p) ∨
  (r = change_reg ∧ invoke r p = networkChange p) ∨
  (∃ j, r = prefetch_reg j ∧
        invoke r p = prefetchOnEnter (TAnchor j)
                       (set_listeners (remove_first (prefetch_reg j)) p)) ∨
  (r = report_reg ∧ invoke r p = reportLargeImages p).
Proof.
  intros Hk Hty. apply known_reg_cases in Hk.
  destruct Hk as [->|[->|[->|[(i & [->|[->| ->]])|[->|[->|[->|[(j & ->)| ->]]]]]]]];
    try (by destruct Hty); eauto 12.
Qed.

Lemma elem_of_ClassList_add (c x : string) (l : ClassList.t) :
  x ∈ ClassList.add c l ↔ x = c ∨ x ∈ l.
Proof.
  unfold ClassList.add, ClassList.contains. case_bool_decide as H.
  - split; [by right|]. by intros [->|?].
  - rewrite elem_of_app, list_elem_of_singleton. tauto.
Qed.

Lemma classes_classList_add (i j : nat) (c : string) (p : Page) :
  classes j (classList_add i c p) =
  if decide (i = j ∧ j < length (imgs p))
  then ClassList.add c (classes j p) else classes j p.
Proof.
  unfold classes, classList_add. rewrite lookup_alter_img.
  destruct (decide (i = j)) as [->|Hne].
  - destruct (imgs p !! j) as [im|] eqn:E; simpl.
    + rewrite decide_True; [done|]. split; [done|]. by eapply lookup_lt_Some.
    + rewrite decide_False; [done|]. intros [_ H].
      apply lookup_ge_None in E. lia.
  - rewrite decide_False; [done|]. by intros [? _].
Qed.

Lemma classes_add_mono (i j : nat) (c x : string) (p : Page) :
  x ∈ classes j p → x ∈ classes j (classList_add i c p).
Proof.
  intros H. rewrite classes_classList_add. case_decide; [|done].
  apply elem_of_ClassList_add. by right.
Qed.

Lemma remove_first_sublist (r : Registration) (l : list Registration) :
  remove_first r l `sublist_of` l.
Proof.
  induction l as [|x l IH]; simpl; [done|].
  case_bool_decide; [by apply sublist_cons | by apply sublist_skip].
Qed.

Lemma filter_remove_first (f : Registration → bool) (r : Registration)
    (l : list Registration) :
  f r = false →
  filter (λ x, f x) (remove_first r l) = filter (λ x, f x) l.
Proof.
  intros Hf. induction l as [|x l IH]; simpl; [done|].
  case_bool_decide as E.
  - subst x. rewrite filter_cons. rewrite Hf. by simpl.
  - rewrite !filter_cons. by rewrite IH.
Qed.

(** What invoking a known listener cannot change, and how it changes the
    table: only by dropping itself when it is a [once] listener. *)
Lemma invoke_known_frame (r : Registration) (p : Page) :
  known_reg r = true → reg_type r ≠ DOMContentLoaded →
  let q := invoke r p in
  env q = env p ∧ connection q = connection p ∧ anchors q = anchors p ∧
  uncaught q = uncaught p ∧
  listeners q = (if reg_once r then remove_first r (listeners p) else listeners p) ∧
  (r ≠ change_reg → body_classList q = body_classList p) ∧
  (∀ i c, c ∈ classes i p → c ∈ classes i q) ∧
  length (imgs q) = length (imgs p).
Proof.
  intros Hk Hty. cbv zeta.
  destruct (invoke_known r p Hk Hty)
    as [(i & -> & ->)|[(i & -> & ->)|[(i & -> & ->)|[[-> ->]|[[-> ->]|[[-> ->]|
        [(j & -> & ->)|[-> ->]]]]]]]].
  - repeat split; try done.
    + intros. by apply classes_add_mono.
    + simpl. by rewrite length_alter.
  - repeat split; try done.
    + intros j c H. apply (classes_add_mono i j "error" c p) in H. exact H.
    + simpl. by rewrite length_alter.
  - unfold measureSize. destruct (imgs p !! i); [|done].
    by destruct (Num.gt _ _).
  - done.
  - unfold throttleScroll. by destruct (negb _).
  - unfold networkChange. destruct (connection p) as [| |t] eqn:Hc; try done.
    destruct (low_bandwidth t); repeat split; done.
  - done.
  - rewrite reportLargeImages_eq. by destruct (0 <? _)%nat.
Qed.

Lemma dispatchEvent_known (P : Page → Prop) (t : Target) (ty : EventType) (p : Page) :
  script_table p → P p →
  (∀ r q, known_reg r = true → reg_target r = t → reg_type r = ty →
          P q → P (invoke r q)) →
  P (dispatchEvent t ty p).
Proof.
  intros Ht Hp Hstep. unfold dispatchEvent. apply forEach_inv; [done|].
  intros r q Hr Hq. apply list_elem_of_filter in Hr as [Hl Hr].
  unfold listens in Hl. apply Is_true_true, andb_true_iff in Hl as [H1 H2].
  apply bool_decide_eq_true in H1, H2.
  apply Hstep; try done.
  unfold script_table in Ht. rewrite Forall_forall in Ht. by apply Ht.
Qed.

(** The callback of the observer touches images and observations only. *)
Lemma imageObserver_frame (es : list Entry) (p : Page) :
  let q := imageObserver es p in
  env q = env p ∧ connection q = connection p ∧ anchors q = anchors p ∧
  body_classList q = body_classList p ∧ head q = head p ∧
  listeners q = listeners p ∧ console q = console p ∧
  uncaught q = uncaught p ∧
  (∀ i, classes i q = classes i p) ∧ length (imgs q) = length (imgs p).
Proof.
  unfold imageObserver.
  apply (forEach_inv (λ q,
    env q = env p ∧ connection q = connection p ∧ anchors q = anchors p ∧
    body_classList q = body_classList p ∧ head q = head p ∧
    listeners q = listeners p ∧ console q = console p ∧
    uncaught q = uncaught p ∧
    (∀ i, classes i q = classes i p) ∧ length (imgs q) = length (imgs p)));
    [done|].
  intros en q _ (H1 & H2 & H3 & H4 & H5 & H6 & H7 & H8 & H9 & H10).
  unfold imageObserver_entry. destruct (isIntersecting en); [|done].
  cbv zeta. destruct (dataset_src (target en) q) as [u|];
    [destruct (Str.truthy u)|]; try done.
  simpl. repeat split; try done.
  - intros i. rewrite <- H9. unfold classes. simpl.
    destruct (decide (target en = i)) as [->|Hne].
    + rewrite !list_lookup_alter_eq. by destruct (imgs q !! i).
    + by rewrite !list_lookup_alter_ne.
  - by rewrite !length_alter.
Qed.

Lemma quiet_refl (p : Page) : script_table p → quiet p p.
Proof. intros H. by repeat split. Qed.

Lemma quiet_frame (p q q' : Page) :
  listeners q' = listeners q → uncaught q' = uncaught q → env q' = env q →
  anchors q' = anchors q → imgs q' = imgs q → quiet p q → quiet p q'.
Proof.
  unfold quiet, script_table, classes. by intros -> -> -> -> ->.
Qed.

Lemma quiet_invoke (r : Registration) (p q : Page) :
  known_reg r = true → reg_type r ≠ DOMContentLoaded →
  quiet p q → quiet p (invoke r q).
Proof.
  intros Hk Hty (Ht & Hu & He & Ha & Hs & Hf & Hc & Hl).
  destruct (invoke_known_frame r q Hk Hty)
    as (He' & _ & Ha' & Hu' & Hls & _ & Hc' & Hl').
  assert (Hsub : listeners (invoke r q) `sublist_of` listeners q).
  { rewrite Hls. destruct (reg_once r); [apply remove_first_sublist | done]. }
  unfold quiet. rewrite Hu', He', Ha', Hl'. repeat split; try done.
  - unfold script_table in *. rewrite Forall_forall in *.
    intros x Hx. apply Ht. by eapply sublist_subseteq.
  - by etrans.
  - intros f Hfp. rewrite <- (Hf f Hfp), Hls.
    destruct (reg_once r) eqn:Ho; [|done].
    apply filter_remove_first.
    apply known_reg_cases in Hk.
    destruct Hk as [->|[->|[->|[(i & [->|[->| ->]])|[->|[->|[->|[(j & ->)| ->]]]]]]]];
      try discriminate Ho. apply Hfp.
  - intros i c Hin. by apply Hc', Hc.
Qed.

Lemma quiet_dispatch (t : Target) (ty : EventType) (p q : Page) :
  ty ≠ DOMContentLoaded → quiet p q → quiet p (dispatchEvent t ty q).
Proof.
  intros Hty Hq. apply dispatchEvent_known; [apply Hq | done |].
  intros r q' Hk _ Hr. apply quiet_invoke; [done | by rewrite Hr].
Qed.

Lemma quiet_step (ev : Event) (p q : Page) : quiet p q → quiet p (step ev q).
Proof.
  intros Hq. destruct ev; simpl; try by apply quiet_dispatch.
  - unfold deliver.
    destruct (imageObserver_frame
                (filter (λ en, bool_decide (target en ∈ observed q)) entries) q)
      as (He & _ & Ha & _ & _ & Hl & _ & Hu & Hc & Hn).
    destruct Hq as (Ht & Hu' & He' & Ha' & Hs & Hf & Hc' & Hl').
    unfold quiet, script_table in *. rewrite Hl, Hu, He, Ha, Hn.
    repeat split; try done. intros i c Hin. rewrite Hc. by apply Hc'.
  - destruct (connection q); try done.
    apply quiet_dispatch; [done|]. revert Hq. by apply quiet_frame.
  - apply forEach_inv.
    + revert Hq. by apply quiet_frame.
    + intros [] q' _. by apply quiet_frame.
Qed.

Lemma quiet_run (evs : list Event) (p : Page) :
  script_table p → quiet p (run evs p).
Proof.
  intros Ht. unfold run. apply forEach_inv; [by apply quiet_refl|].
  intros ev q _. apply quiet_step.
Qed.

Lemma known_img_regs (i : nat) :
  known_reg (fade_reg i) = true ∧ known_reg (error_reg i) = true ∧
  known_reg (measure_reg i) = true.
Proof. repeat split; by apply bool_decide_eq_true_2. Qed.

Lemma known_prefetch_reg (j : nat) : known_reg (prefetch_reg j) = true.
Proof. by apply bool_decide_eq_true_2. Qed.

Lemma known_tracking_regs (l : list nat) (ims : list Img) :
  Forall (λ r, known_reg r = true) (tracking_regs l ims).
Proof.
  unfold tracking_regs. induction l as [|x l IH]; simpl; [constructor|].
  apply Forall_app. split; [|done].
  destruct (from_option img_complete false (ims !! x)); repeat constructor;
    apply known_img_regs.
Qed.

Lemma known_init_regs (e : Env) (c : NavConnection) (ims : list Img)
    (ans : list Anchor) :
  Forall (λ r, known_reg r = true) (init_regs e c ims ans).
Proof.
  assert (Hrest : Forall (λ r, known_reg r = true)
            (network_regs c ++ (prefetch_reg <$> select is_html_link ans) ++
             (if localhost e then
                (measure_reg <$> select is_png_or_jpg
                                   (mark_complete (select is_lazy ims) ims))
                ++ [report_reg]
              else []))).
  { repeat (apply Forall_app; split).
    - destruct c; repeat constructor.
    - apply Forall_fmap, Forall_forall. intros j _. apply known_prefetch_reg.
    - destruct (localhost e); [|constructor].
      apply Forall_app. split; [|by repeat constructor].
      apply Forall_fmap, Forall_forall. intros i _. apply known_img_regs. }
  unfold init_regs. repeat (apply Forall_app; split).
  - apply known_tracking_regs.
  - destruct (has_ontouchstart e); repeat constructor.
  - repeat constructor.
  - destruct c; [done | constructor | done].
Qed.

Lemma script_table_loaded (e : Env) (c : NavConnection) (d : Document) :
  script_table (page_load e c d).
Proof.
  rewrite page_load_closed. unfold script_table, loaded_page. simpl.
  apply Forall_app. split; [|apply known_init_regs].
  unfold dcl_regs.
  destruct (has_IntersectionObserver e), (readyState e); repeat constructor.
Qed.

(** Every page reached from a loaded page is [quiet] with respect to it. *)
Lemma quiet_reachable (e : Env) (c : NavConnection) (d : Document)
    (evs : list Event) :
  quiet (page_load e c d) (run evs (page_load e c d)).
Proof. apply quiet_run, script_table_loaded. Qed.

(** ** The connection and the reduced-activity flag *)

Lemma dispatch_connection_body (t : Target) (ty : EventType) (p : Page) :
  script_table p → ty ≠ DOMContentLoaded →
  connection (dispatchEvent t ty p) = connection p ∧
  (ty ≠ change → body_classList (dispatchEvent t ty p) = body_classList p).
Proof.
  intros Ht Hty.
  apply (dispatchEvent_known (λ q,
    connection q = connection p ∧
    (ty ≠ change → body_classList q = body_classList p))); [done | done |].
  intros r q Hk _ Hr [Hc Hb].
  destruct (invoke_known_frame r q Hk) as (_ & Hc' & _ & _ & _ & Hb' & _).
  { by rewrite Hr. }
  split; [by rewrite Hc'|]. intros Hne. rewrite Hb'; [by apply Hb|].
  intros ->. by apply Hne.
Qed.

Lemma step_connection_body (ev : Event) (p : Page) :
  script_table p →
  connection (step ev p) = connection_after ev (connection p) ∧
  (reports_change ev (connection p) = false →
   body_classList (step ev p) = body_classList p).
Proof.
  intros Ht.
  destruct ev; simpl.
  - destruct (imageObserver_frame
                (filter (λ en, bool_decide (target en ∈ observed p)) entries) p)
      as (_ & Hc & _ & Hb & _).
    unfold deliver. by rewrite Hc, Hb.
  - by destruct (dispatch_connection_body (TImg i) load p Ht) as [-> ->].
  - by destruct (dispatch_connection_body (TImg i) error p Ht) as [-> ->].
  - by destruct (dispatch_connection_body (TAnchor j) mouseenter p Ht) as [-> ->].
  - destruct (connection p) eqn:Hc; try done. split; [|done].
    by destruct (dispatch_connection_body TConnection change
                   (set_connection (NetworkInformation effectiveType) p))
      as [-> _].
  - by destruct (dispatch_connection_body TWindow scroll p Ht) as [-> ->].
  - by destruct (dispatch_connection_body TDocument touchstart p Ht) as [-> ->].
  - apply (forEach_inv (λ q, connection q = connection p ∧
                             (false = false → body_classList q = body_classList p)));
      [done|].
    intros [] q _ [? H]. split; [done|]. intros _. by apply H.
  - by destruct (dispatch_connection_body TWindow load p Ht) as [-> ->].
Qed.

(** The script completes unless [init] runs inside it on a nullish
    connection. *)
Lemma script_completes (p : Page) :
  (script p).2 =
  if is_loading (env p) || negb (is_nullish (connection p))
  then Normal tt else Throw nullish_error.
Proof.
  unfold script, mbind, Js_bind, effect, ask, mret, Js_ret, is_loading.
  destruct (has_IntersectionObserver (env p)); cbn beta iota.
  all: cbn [env addEventListener set_listeners].
  all: destruct (readyState (env p)); cbn beta iota; try reflexivity.
  all: rewrite init_closed; cbn [connection addEventListener set_listeners].
  all: destruct (connection p); reflexivity.
Qed.

(** C9.  When [navigator] has no [connection] property at all, loading the
    page raises no error (the script completes normally and nothing is
    ever reported as uncaught), and through every sequence of events the
    class list of the body stays the one of the markup: the script never
    sets the reduced-activity flag. *)
Theorem absent_connection_degrades (e : Env) (d : Document) (evs : list Event) :
  let p := run evs (page_load e NotInNavigator d) in
  (script (fresh_page e NotInNavigator d)).2 = Normal tt ∧
  uncaught p = [] ∧
  connection p = NotInNavigator ∧
  body_classList p = d_body_class d ∧
  reduced_activity p = ClassList.contains "low-bandwidth" (d_body_class d).
Proof.
  cbv zeta.
  assert (Hscript : (script (fresh_page e NotInNavigator d)).2 = Normal tt).
  { rewrite script_completes. simpl. by rewrite orb_true_r. }
  assert (Hinv : ∀ l p, script_table p → connection p = NotInNavigator →
            uncaught (run l p) = uncaught p ∧
            connection (run l p) = NotInNavigator ∧
            body_classList (run l p) = body_classList p).
  { induction l as [|ev l IH]; intros p Ht Hc; [done|].
    change (run (ev :: l) p) with (run l (step ev p)).
    destruct (step_connection_body ev p Ht) as [Hc' Hb'].
    destruct (quiet_step ev p p (quiet_refl p Ht)) as (Ht' & Hu' & _).
    rewrite Hc in Hc', Hb'.
    assert (connection (step ev p) = NotInNavigator) as Hc''.
    { rewrite Hc'. by destruct ev. }
    destruct (IH (step ev p) Ht' Hc'') as (-> & -> & ->).
    rewrite Hu', Hb'; [done|]. by destruct ev. }
  destruct (Hinv evs (page_load e NotInNavigator d)) as (Hu & Hc & Hb).
  { apply script_table_loaded. }
  { by rewrite page_load_closed. }
  unfold reduced_activity. rewrite Hu, Hc, Hb.
  rewrite page_load_closed. done.
Qed.

(** ** Which listeners the loaded page has for a given target and event *)

(** The table of the loaded page, filtered piece by piece. *)
Lemma filter_loaded (f : Registration → bool) (e : Env) (c : NavConnection)
    (d : Document) :
  filter (λ r, f r) (listeners (page_load e c d)) =
  filter (λ r, f r) (dcl_regs e) ++
  filter (λ r, f r) (tracking_regs (registered_images d) (d_imgs d)) ++
  filter (λ r, f r) ((if has_ontouchstart e then [touch_reg] else []) ++ [scroll_reg]) ++
  (if is_nullish c then [] else
     filter (λ r, f r) (network_regs c) ++
     filter (λ r, f r) (prefetch_reg <$> select is_html_link (d_anchors d)) ++
     (if localhost e then
        filter (λ r, f r)
          (measure_reg <$> select is_png_or_jpg
                             (mark_complete (registered_images d) (d_imgs d))) ++
        filter (λ r, f r) [report_reg]
      else [])).
Proof.
  rewrite page_load_closed. cbn [listeners loaded_page].
  unfold init_regs, registered_images. rewrite !filter_app.
  destruct c; cbn [is_nullish]; rewrite ?filter_app; try done;
    destruct (localhost e); rewrite ?filter_app; done.
Qed.

Lemma change_listeners_loaded (e : Env) (t : string) (d : Document) :
  filter (λ r, listens TConnection change r)
    (listeners (page_load e (NetworkInformation t) d)) = [change_reg].
Proof.
  rewrite filter_loaded. cbn [is_nullish network_regs].
  rewrite filter_dcl_regs by done.
  rewrite filter_tracking_other by done.
  rewrite (filter_fmap_none _ _ prefetch_reg) by done.
  rewrite (filter_fmap_none _ _ measure_reg) by done.
  by destruct (has_ontouchstart e), (localhost e).
Qed.

Lemma contains_add (c : string) (l : ClassList.t) :
  ClassList.contains c (ClassList.add c l) = true.
Proof.
  unfold ClassList.contains. apply bool_decide_eq_true.
  apply elem_of_ClassList_add. by left.
Qed.

Lemma contains_remove (c : string) (l : ClassList.t) :
  ClassList.contains c (ClassList.remove c l) = false.
Proof.
  unfold ClassList.contains, ClassList.remove. apply bool_decide_eq_false.
  rewrite list_elem_of_filter. by intros [? _].
Qed.

(** A change event on a subscribed connection sets the flag from the
    reported type alone. *)
Lemma change_event (p : Page) (t ty : string) :
  connection p = NetworkInformation t →
  filter (λ r, listens TConnection change r) (listeners p) = [change_reg] →
  reduced_activity (step (ConnectionChange ty) p) = low_bandwidth ty.
Proof.
  intros Hc Hf. simpl. rewrite Hc. unfold dispatchEvent.
  change (listeners (set_connection (NetworkInformation ty) p)) with (listeners p).
  rewrite Hf.
  change (forEach [change_reg] invoke (set_connection (NetworkInformation ty) p))
    with (networkChange (set_connection (NetworkInformation ty) p)).
  unfold networkChange, reduced_activity. simpl.
  destruct (low_bandwidth ty); simpl; [apply contains_add | apply contains_remove].
Qed.

Lemma flag_follows (l : list Event) (p : Page) (o : option string) :
  script_table p →
  (∃ t, connection p = NetworkInformation t) →
  filter (λ r, listens TConnection change r) (listeners p) = [change_reg] →
  (∀ ty, o = Some ty → reduced_activity p = low_bandwidth ty) →
  ∀ ty,
    foldl (λ acc ev, match ev with ConnectionChange ty => Some ty | _ => acc end) o l
    = Some ty →
    reduced_activity (run l p) = low_bandwidth ty.
Proof.
  revert p o. induction l as [|ev l IH]; intros p o Ht [t Hc] Hf Ho ty Hl.
  { by apply Ho. }
  change (run (ev :: l) p) with (run l (step ev p)). simpl in Hl.
  destruct (step_connection_body ev p Ht) as [Hc' Hb'].
  destruct (quiet_step ev p p (quiet_refl p Ht)) as (Ht' & _ & _ & _ & _ & Hq & _).
  eapply IH; [exact Ht' | | | | exact Hl].
  - rewrite Hc', Hc. destruct ev; simpl; eauto.
  - rewrite <- Hf. apply (Hq (listens TConnection change)). done.
  - intros ty'. destruct ev; try (intros Hty; unfold reduced_activity;
      rewrite Hb' by (by rewrite Hc); by apply Ho).
    intros [= <-]. by eapply change_event.
Qed.

(** C6.  On a page loaded with a NetworkInformation object, after any
    sequence of events the reduced-activity flag is the classification of
    the effective type reported by the most recent connection-change
    event, whatever was reported before: after a change reporting 2g the
    flag is set, and after a later change reporting 4g it is cleared. *)
Theorem latest_connection_wins
    (e : Env) (d : Document) (t0 : string) (evs evs' : list Event) :
  let P := page_load e (NetworkInformation t0) d in
  (∀ ty, last_reported evs = Some ty →
         reduced_activity (run evs P) = low_bandwidth ty) ∧
  reduced_activity (run (evs ++ [ConnectionChange "2g"]) P) = true ∧
  reduced_activity
    (run (evs ++ [ConnectionChange "2g"] ++ evs' ++ [ConnectionChange "4g"]) P)
  = false.
Proof.
  cbv zeta.
  assert (H : ∀ l ty, last_reported l = Some ty →
            reduced_activity (run l (page_load e (NetworkInformation t0) d))
            = low_bandwidth ty).
  { intros l ty Hl. eapply flag_follows; [| | | |exact Hl].
    - apply script_table_loaded.
    - exists t0. by rewrite page_load_closed.
    - apply change_listeners_loaded.
    - done. }
  split; [apply H|]. split.
  - apply (H _ "2g"). unfold last_reported. by rewrite foldl_app.
  - apply (H _ "4g"). unfold last_reported. by rewrite !foldl_app.
Qed.

(** The demo page after reports of 2g and then 4g: the flag is cleared. *)
Lemma latest_connection_wins_witness :
  last_reported [ConnectionChange "2g"; Scroll; ConnectionChange "4g"; ImgLoaded 0]
  = Some "4g" ∧
  reduced_activity
    (run [ConnectionChange "2g"; Scroll; ConnectionChange "4g"; ImgLoaded 0] demo_page)
  = low_bandwidth "4g".
Proof.
  split; [reflexivity|].
  apply (proj1 (latest_connection_wins demo_env demo_doc "4g"
                  [ConnectionChange "2g"; Scroll; ConnectionChange "4g"; ImgLoaded 0]
                  [])).
  reflexivity.
Defined.

(** ** Prefetch on hover: C8 *)

Lemma sublist_filter_length {A} (f : A → bool) (l1 l2 : list A) :
  l1 `sublist_of` l2 →
  (length (filter (λ x, f x) l1) ≤ length (filter (λ x, f x) l2))%nat.
Proof.
  induction 1 as [|x l1 l2 _ IH|x l1 l2 _ IH]; [done| |];
    rewrite ?filter_cons; destruct (f x); simpl; lia.
Qed.

Lemma armed_step (j : nat) (ev : Event) (p : Page) :
  script_table p → (armed j (step ev p) ≤ armed j p)%nat.
Proof.
  intros Ht.
  destruct (quiet_step ev p p (quiet_refl p Ht)) as (_ & _ & _ & _ & Hs & _).
  by apply sublist_filter_length.
Qed.

Lemma armed_run (j : nat) (evs : list Event) (p : Page) :
  script_table p → (armed j (run evs p) ≤ armed j p)%nat.
Proof.
  intros Ht.
  destruct (quiet_run evs p Ht) as (_ & _ & _ & _ & Hs & _).
  by apply sublist_filter_length.
Qed.

(** The [mouseenter] listeners of an anchor are copies of its prefetch
    listener. *)
Lemma armed_shape (j : nat) (p : Page) :
  script_table p →
  filter (λ r, listens (TAnchor j) mouseenter r) (listeners p)
  = replicate (armed j p) (prefetch_reg j).
Proof.
  unfold script_table, armed. induction (listeners p) as [|r l IH]; intros Ht.
  { done. }
  apply Forall_cons in Ht as [Hr Ht]. rewrite filter_cons.
  destruct (listens (TAnchor j) mouseenter r) eqn:Hl; simpl; [|by apply IH].
  rewrite <- IH by done. f_equal.
  unfold listens in Hl. apply andb_true_iff in Hl as [H1 H2].
  apply bool_decide_eq_true in H1, H2. apply known_reg_cases in Hr.
  destruct Hr as [->|[->|[->|[(i & [->|[->| ->]])|[->|[->|[->|[(j' & ->)| ->]]]]]]]];
    try discriminate. by injection H1 as ->.
Qed.

Lemma filter_remove_first_hit (f : Registration → bool) (r : Registration)
    (l : list Registration) :
  filter (λ x, f x) (remove_first r l) = remove_first r (filter (λ x, f x) l) ∨
  f r = false.
Proof.
  destruct (f r) eqn:Hf; [left | by right].
  induction l as [|x l IH]; simpl; [done|].
  case_bool_decide as E.
  - subst x. rewrite filter_cons, Hf. simpl. by rewrite bool_decide_eq_true_2.
  - rewrite !filter_cons. destruct (f x); simpl; [|done].
    rewrite bool_decide_eq_false_2 by done. by rewrite IH.
Qed.

(** The pointer enters an anchor whose listener is still in place: one
    hint is appended and the listener is gone. *)
Lemma hover_armed (j : nat) (p : Page) :
  script_table p → armed j p = 1 →
  head (step (PointerEnter j) p) = head p ++ [LinkNode "prefetch" (href_of j p)] ∧
  armed j (step (PointerEnter j) p) = 0.
Proof.
  intros Ht Ha. simpl. unfold dispatchEvent.
  pose proof (armed_shape j p Ht) as Hs. rewrite Ha in Hs. simpl in Hs.
  rewrite Hs.
  change (forEach [prefetch_reg j] invoke p)
    with (prefetchOnEnter (TAnchor j)
            (set_listeners (remove_first (prefetch_reg j)) p)).
  split; [done|]. unfold armed. simpl.
  destruct (filter_remove_first_hit (listens (TAnchor j) mouseenter)
              (prefetch_reg j) (listeners p)) as [->|Hf].
  - rewrite Hs. simpl. by rewrite bool_decide_eq_true_2.
  - unfold listens in Hf. simpl in Hf. by rewrite bool_decide_eq_true_2 in Hf.
Qed.

(** The pointer enters an anchor that has no listener left: nothing
    happens. *)
Lemma hover_spent (j : nat) (p : Page) :
  armed j p = 0 → step (PointerEnter j) p = p.
Proof.
  intros Ha. simpl. unfold dispatchEvent. unfold armed in Ha.
  apply length_zero_iff_nil in Ha. by rewrite Ha.
Qed.

Lemma armed_prefetch (j : nat) (l : list nat) :
  NoDup l →
  (length (filter (λ r, listens (TAnchor j) mouseenter r) (prefetch_reg <$> l))
   ≤ 1)%nat.
Proof.
  induction 1 as [|x l Hx _ IH]; [simpl; lia|].
  rewrite fmap_cons, filter_cons.
  destruct (decide (x = j)) as [->|Hne].
  - rewrite filter_none.
    + destruct (decide _); simpl; lia.
    + intros r Hr. apply list_elem_of_fmap in Hr as (i & -> & Hi).
      unfold listens. cbn [reg_target reg_type prefetch_reg].
      rewrite (bool_decide_eq_false_2 (TAnchor i = TAnchor j)); [done|].
      intros [= ->]. done.
  - rewrite decide_False; [exact IH|].
    unfold listens. cbn [reg_target reg_type prefetch_reg].
    rewrite (bool_decide_eq_false_2 (TAnchor x = TAnchor j)) by congruence.
    simpl. tauto.
Qed.

Lemma armed_loaded (e : Env) (c : NavConnection) (d : Document) (j : nat) :
  (armed j (page_load e c d) ≤ 1)%nat.
Proof.
  unfold armed. rewrite filter_loaded.
  rewrite filter_dcl_regs by done.
  rewrite filter_tracking_other by done.
  rewrite (filter_fmap_none _ _ measure_reg) by done.
  pose proof (armed_prefetch j (select is_html_link (d_anchors d))
                (NoDup_select _ _)) as Hp.
  destruct (has_ontouchstart e), c, (localhost e);
    cbn [is_nullish network_regs]; rewrite ?length_app; simpl; lia.
Qed.

Lemma hints_for_armed (j : nat) (evs : list Event) (p : Page) :
  script_table p → (armed j p ≤ 1)%nat → (hints_for j evs p ≤ armed j p)%nat.
Proof.
  revert p. induction evs as [|ev evs IH]; intros p Ht Ha; [simpl; lia|].
  assert (Ht' : script_table (step ev p)).
  { apply (quiet_step ev p p (quiet_refl p Ht)). }
  pose proof (armed_step j ev p Ht) as Hle.
  specialize (IH (step ev p) Ht' ltac:(lia)).
  cbn [hints_for].
  destruct ev as [| | |j'| | | | |]; try lia.
  destruct (decide (j' = j)) as [->|Hne]; [|lia].
  destruct (decide (armed j p = 1)) as [H1|H0].
  - destruct (hover_armed j p Ht H1) as [Hh Hz].
    rewrite Hh, length_app in *. simpl in *. lia.
  - assert (armed j p = 0) as Hz by lia.
    rewrite (hover_spent j p Hz) in *. lia.
Qed.

(** C8.  On a loaded page, whatever events occur, the events in which the
    pointer enters a given link append at most one prefetch hint to the
    head in total; and once the pointer has entered the link, a later
    hover on it leaves the page exactly as it is. *)
Theorem prefetch_fires_once
    (e : Env) (c : NavConnection) (d : Document) (j : nat)
    (evs evs1 evs2 : list Event) :
  let P := page_load e c d in
  (hints_for j evs P ≤ 1)%nat ∧
  let p2 := run (evs1 ++ [PointerEnter j] ++ evs2) P in
  step (PointerEnter j) p2 = p2.
Proof.
  cbv zeta. pose proof (script_table_loaded e c d) as Ht.
  pose proof (armed_loaded e c d j) as Ha. split.
  - pose proof (hints_for_armed j evs _ Ht Ha). lia.
  - apply hover_spent.
    unfold run. rewrite !forEach_app. fold (run evs1 (page_load e c d)).
    set (p1 := run evs1 (page_load e c d)).
    assert (Ht1 : script_table p1) by apply (quiet_run evs1 _ Ht).
    assert (Ha1 : (armed j p1 ≤ 1)%nat).
    { pose proof (armed_run j evs1 _ Ht). unfold p1. lia. }
    rewrite forEach_cons, forEach_nil.
    assert (Hz : armed j (step (PointerEnter j) p1) = 0).
    { destruct (decide (armed j p1 = 1)) as [H1|H0].
      - apply (hover_armed j p1 Ht1 H1).
      - assert (armed j p1 = 0) as Hz by lia. by rewrite (hover_spent j p1 Hz). }
    assert (Ht2 : script_table (step (PointerEnter j) p1)).
    { apply (quiet_step _ p1 p1 (quiet_refl p1 Ht1)). }
    pose proof (armed_run j evs2 _ Ht2) as Hle.
    unfold run in Hle. lia.
Qed.

(** ** Startup classification: C5 *)

(** C5, as stated, fails: at startup a connection reporting 3g, which is
    faster than 2G, is classified as slow, and entrance animations are
    disabled for it. *)
Lemma three_g_classified_slow :
  two_g_or_slower "3g" = false ∧
  isSlowConnection (NetworkInformation "3g") = true ∧
  aos_calls (page_load (mkEnv "Mozilla/5.0 (X11; Linux x86_64)" "example.org"
                          true true false Loading id false)
               (NetworkInformation "3g") demo_doc)
  = [ {| aos_duration := 600; aos_once := true; aos_disable := true;
         aos_offset := 50; aos_easing := "ease-in-out" |} ].
Proof. repeat split. Qed.

(** C5 (as amended).  The startup classification deems a connection slow
    exactly when a NetworkInformation object reports slow-2g, 2g or 3g;
    every other reported type, and an absent connection, is not slow.
    [AOS.init] is called only when the library is present and the device
    is mobile or the connection slow; while the page loads that is once,
    provided [DOMContentLoaded] was still to come when the script ran,
    and the configuration it receives disables the animations exactly
    under the slow classification. *)
Theorem startup_classification (c : NavConnection) (p : Page)
    (e : Env) (d : Document) :
  (isSlowConnection c = true ↔
   ∃ t, c = NetworkInformation t ∧ (t = "slow-2g" ∨ t = "2g" ∨ t = "3g")) ∧
  aos_calls (configureAOS p) =
    aos_calls p ++
    (if has_AOS (env p)
        && (isMobile (userAgent (env p)) || isSlowConnection (connection p))
     then [aos_config (isSlowConnection (connection p))] else []) ∧
  aos_calls (page_load e c d) =
    (if awaits_DOMContentLoaded e && has_AOS e
        && (isMobile (userAgent e) || isSlowConnection c)
     then [aos_config (isSlowConnection c)] else []) ∧
  aos_disable (aos_config (isSlowConnection c)) = isSlowConnection c.
Proof.
  repeat split.
  - destruct c as [| |t]; simpl; try done. intros H. exists t. split; [done|].
    unfold Str.eq in H. apply orb_true_iff in H as [H|H];
      [apply orb_true_iff in H as [H|H]|];
      apply bool_decide_eq_true in H; tauto.
  - intros (t & -> & [->|[->| ->]]); reflexivity.
  - unfold configureAOS. destruct (has_AOS (env p)); simpl.
    + destruct (isMobile _ || isSlowConnection _); simpl; [done|].
      by rewrite app_nil_r.
    + by rewrite app_nil_r.
  - by rewrite page_load_closed.
  - by destruct (isSlowConnection c).
Qed.

(** ** Load-outcome tracking: C3, C4, C7 *)

Lemma length_mark_complete (l : list nat) (ims : list Img) :
  length (mark_complete l ims) = length ims.
Proof.
  unfold mark_complete. revert ims.
  induction l as [|x l IH]; intros ims; simpl; [done|].
  rewrite IH. destruct (from_option img_complete false (ims !! x)); [|done].
  apply length_alter.
Qed.

Lemma mark_complete_mono (l : list nat) (ims : list Img) (i : nat) (c : string) :
  c ∈ from_option img_classList [] (ims !! i) →
  c ∈ from_option img_classList [] (mark_complete l ims !! i).
Proof.
  unfold mark_complete. revert ims.
  induction l as [|x l IH]; intros ims H; simpl; [done|].
  apply IH. destruct (from_option img_complete false (ims !! x)); [|done].
  destruct (decide (x = i)) as [->|Hne].
  - rewrite list_lookup_alter_eq. destruct (ims !! i); simpl in *; [|done].
    apply elem_of_ClassList_add. by right.
  - by rewrite list_lookup_alter_ne.
Qed.

(** An image of the node list that is complete gets the class. *)
Lemma mark_complete_loaded (l : list nat) (ims : list Img) (i : nat) (im : Img) :
  i ∈ l → ims !! i = Some im → img_complete im = true →
  "loaded" ∈ from_option img_classList [] (mark_complete l ims !! i).
Proof.
  unfold mark_complete. revert ims im.
  induction l as [|x l IH]; intros ims im Hi Him Hc.
  { by apply elem_of_nil in Hi. }
  simpl. destruct (decide (x = i)) as [->|Hne].
  - rewrite Him. simpl. rewrite Hc.
    apply (mark_complete_mono l). rewrite list_lookup_alter_eq, Him. simpl.
    apply elem_of_ClassList_add. by left.
  - apply elem_of_cons in Hi as [->|Hi]; [done|].
    destruct (from_option img_complete false (ims !! x)).
    + eapply IH; [done | | done]. by rewrite list_lookup_alter_ne.
    + by eapply IH.
Qed.

(** An image that is not complete is left as it is. *)
Lemma mark_complete_pending (l : list nat) (ims : list Img) (i : nat) :
  from_option img_complete false (ims !! i) = false →
  mark_complete l ims !! i = ims !! i.
Proof.
  unfold mark_complete. revert ims.
  induction l as [|x l IH]; intros ims Hc; simpl; [done|].
  destruct (from_option img_complete false (ims !! x)) eqn:Hx.
  - rewrite IH.
    + apply list_lookup_alter_ne. intros ->. congruence.
    + by rewrite complete_alter_classList.
  - by apply IH.
Qed.

Lemma filter_pair_error (i x : nat) :
  filter (λ r, listens (TImg i) error r) [fade_reg x; error_reg x] =
  if bool_decide (x = i) then [error_reg x] else [].
Proof.
  rewrite !filter_cons, filter_nil. unfold listens.
  cbn [reg_target reg_type fade_reg error_reg].
  case_bool_decide as E.
  - injection E as ->. by rewrite (bool_decide_eq_true_2 (i = i)).
  - by rewrite (bool_decide_eq_false_2 (x = i)) by congruence.
Qed.

Lemma filter_tracking_error (i : nat) (l : list nat) (ims : list Img) :
  NoDup l →
  filter (λ r, listens (TImg i) error r) (tracking_regs l ims) =
  if bool_decide (i ∈ l) && negb (from_option img_complete false (ims !! i))
  then [error_reg i] else [].
Proof.
  unfold tracking_regs. induction 1 as [|x l Hx _ IH]; [done|].
  cbn [flat_map]. rewrite filter_app, IH.
  destruct (decide (x = i)) as [->|Hne].
  - rewrite (bool_decide_eq_true_2 (i ∈ i :: l)) by left.
    rewrite (bool_decide_eq_false_2 (i ∈ l)) by done. cbn [andb].
    destruct (from_option img_complete false (ims !! i)); [done|].
    rewrite filter_pair_error, bool_decide_eq_true_2 by done. done.
  - assert (bool_decide (i ∈ x :: l) = bool_decide (i ∈ l)) as ->.
    { apply bool_decide_ext. rewrite elem_of_cons. naive_solver. }
    destruct (from_option img_complete false (ims !! x)); [done|].
    rewrite filter_pair_error, bool_decide_eq_false_2 by done. done.
Qed.

(** On a loaded page, the [error] listeners of an image: the one of
    [progressiveImageLoad] when the image is lazy and was not complete,
    none otherwise. *)
Lemma error_listeners_loaded (e : Env) (c : NavConnection) (d : Document) (i : nat) :
  filter (λ r, listens (TImg i) error r) (listeners (page_load e c d)) =
  if bool_decide (i ∈ registered_images d)
     && negb (from_option img_complete false (d_imgs d !! i))
  then [error_reg i] else [].
Proof.
  rewrite filter_loaded. rewrite filter_dcl_regs by done.
  rewrite filter_tracking_error by apply NoDup_select.
  rewrite (filter_fmap_none _ _ prefetch_reg) by done.
  rewrite (filter_fmap_none _ _ measure_reg)
    by (intros k; unfold listens; apply andb_false_r).
  by destruct (has_ontouchstart e), c, (localhost e);
    cbn [is_nullish network_regs]; rewrite ?app_nil_r.
Qed.

Lemma quiet_invokes (l : list Registration) (p q : Page) :
  Forall (λ r, known_reg r = true ∧ reg_type r ≠ DOMContentLoaded) l →
  quiet p q → quiet p (forEach l invoke q).
Proof.
  intros Hl Hq. apply forEach_inv; [done|].
  intros r q' Hr. rewrite Forall_forall in Hl.
  destruct (Hl r Hr). by apply quiet_invoke.
Qed.

(** A listener that is not a [once] listener is never removed. *)
Lemma quiet_keeps (r : Registration) (p q : Page) :
  quiet p q → reg_once r = false → r ∈ listeners p → r ∈ listeners q.
Proof.
  intros (_ & _ & _ & _ & _ & Hf & _) Ho Hr.
  assert (H : r ∈ filter (λ x, bool_decide (x = r)) (listeners q)).
  { rewrite (Hf (λ x, bool_decide (x = r))).
    - apply list_elem_of_filter. split; [|done]. by apply bool_decide_pack.
    - intros j. apply bool_decide_eq_false_2. intros <-. discriminate Ho. }
  by apply list_elem_of_filter in H as [_ H].
Qed.

(** A load event on an image that has the fade-in listener marks it. *)
Lemma load_event_marks (i : nat) (p : Page) :
  script_table p → i < length (imgs p) → fade_reg i ∈ listeners p →
  "loaded" ∈ classes i (step (ImgLoaded i) p).
Proof.
  intros Ht Hi Hf. simpl. unfold dispatchEvent.
  set (snap := filter (λ r, listens (TImg i) load r) (listeners p)).
  assert (Hknown : Forall (λ r, known_reg r = true ∧
                               reg_type r ≠ DOMContentLoaded) snap).
  { apply Forall_forall. intros r Hr.
    apply list_elem_of_filter in Hr as [Hl Hr].
    unfold listens in Hl. apply Is_true_true, andb_true_iff in Hl as [_ H2].
    apply bool_decide_eq_true in H2. split; [|by rewrite H2].
    unfold script_table in Ht. rewrite Forall_forall in Ht. by apply Ht. }
  assert (Hin : fade_reg i ∈ snap).
  { apply list_elem_of_filter. split; [|done]. unfold listens. simpl.
    by rewrite !bool_decide_eq_true_2. }
  apply list_elem_of_split in Hin as (l1 & l2 & Hsplit).
  rewrite Hsplit in *. apply Forall_app in Hknown as [Hk1 Hk2].
  apply Forall_cons in Hk2 as [_ Hk2].
  rewrite forEach_app, forEach_cons.
  set (q1 := forEach l1 invoke p).
  assert (Hq1 : quiet p q1) by by apply quiet_invokes, quiet_refl.
  change (invoke (fade_reg i) q1) with (classList_add i "loaded" q1).
  set (q2 := classList_add i "loaded" q1).
  assert (Hq2 : quiet p q2).
  { apply (quiet_invoke (fade_reg i) p q1); [apply known_img_regs | done | done]. }
  assert (Hl2 : "loaded" ∈ classes i q2).
  { unfold q2. rewrite classes_classList_add. rewrite decide_True.
    - apply elem_of_ClassList_add. by left.
    - split; [done|]. destruct Hq1 as (_ & _ & _ & _ & _ & _ & _ & ->). done. }
  destruct Hq2 as (Ht2 & _).
  destruct (quiet_invokes l2 q2 q2 Hk2 (quiet_refl q2 Ht2))
    as (_ & _ & _ & _ & _ & _ & Hmono & _).
  by apply Hmono.
Qed.

(** A failure event on an image with exactly the error listener: the class
    is added and one warning with the source of the image is logged. *)
Lemma error_event (i : nat) (p : Page) :
  filter (λ r, listens (TImg i) error r) (listeners p) = [error_reg i] →
  step (ImgFailed i) p = markError (TImg i) p.
Proof. intros Hf. simpl. unfold dispatchEvent. by rewrite Hf. Qed.

Lemma invoke_known_loaded (r : Registration) (q : Page) (i : nat) :
  known_reg r = true → reg_type r ≠ DOMContentLoaded → r ≠ fade_reg i →
  ("loaded" ∈ classes i (invoke r q) ↔ "loaded" ∈ classes i q).
Proof.
  intros Hk Hty Hne.
  destruct (invoke_known r q Hk Hty)
    as [(k & -> & ->)|[(k & -> & ->)|[(k & -> & ->)|[[-> ->]|[[-> ->]|[[-> ->]|
        [(j & -> & ->)|[-> ->]]]]]]]]; try done.
  - rewrite classes_classList_add. rewrite decide_False; [done|].
    intros [-> _]. done.
  - unfold markError.
    change (classes i (console_call _ (classList_add k "error" q)))
      with (classes i (classList_add k "error" q)).
    rewrite classes_classList_add. case_decide; [|done].
    rewrite elem_of_ClassList_add. naive_solver.
  - unfold measureSize. destruct (imgs q !! k); [|done]. by destruct (Num.gt _ _).
  - unfold throttleScroll. by destruct (negb _).
  - unfold networkChange. destruct (connection q); try done.
    by destruct (low_bandwidth _).
  - rewrite reportLargeImages_eq. by destruct (0 <? _)%nat.
Qed.

Lemma dispatch_loaded (t : Target) (ty : EventType) (i : nat) (p : Page) :
  script_table p → ty ≠ DOMContentLoaded → (t = TImg i → ty ≠ load) →
  ("loaded" ∈ classes i (dispatchEvent t ty p) ↔ "loaded" ∈ classes i p).
Proof.
  intros Ht Hty Hne.
  apply (dispatchEvent_known (λ q,
    "loaded" ∈ classes i q ↔ "loaded" ∈ classes i p)); [done | done |].
  intros r q Hk Hrt Hr <-. apply invoke_known_loaded; [done | by rewrite Hr |].
  intros ->. simpl in *. subst. by apply Hne.
Qed.

(** Only a load event on the image itself gives it the loaded class. *)
Lemma step_loaded (ev : Event) (i : nat) (p : Page) :
  script_table p → is_load_of i ev = false →
  ("loaded" ∈ classes i (step ev p) ↔ "loaded" ∈ classes i p).
Proof.
  intros Ht Hev. destruct ev; simpl; try (by apply dispatch_loaded).
  - unfold deliver.
    destruct (imageObserver_frame
                (filter (λ en, bool_decide (target en ∈ observed p)) entries) p)
      as (_ & _ & _ & _ & _ & _ & _ & _ & Hc & _).
    by rewrite Hc.
  - apply dispatch_loaded; [done | done |]. intros [= ->].
    simpl in Hev. by rewrite bool_decide_eq_true_2 in Hev.
  - destruct (connection p) as [| |t]; try done.
    by apply (dispatch_loaded TConnection change i
                (set_connection (NetworkInformation effectiveType) p)).
  - apply (forEach_inv (λ q, "loaded" ∈ classes i q ↔ "loaded" ∈ classes i p));
      [done|].
    by intros [] q _ <-.
Qed.

Lemma run_loaded (evs : list Event) (i : nat) (p : Page) :
  script_table p → forallb (λ ev, negb (is_load_of i ev)) evs = true →
  ("loaded" ∈ classes i (run evs p) ↔ "loaded" ∈ classes i p).
Proof.
  revert p. induction evs as [|ev evs IH]; intros p Ht Hall; [done|].
  simpl in Hall. apply andb_true_iff in Hall as [Hev Hall].
  apply negb_true_iff in Hev.
  change (run (ev :: evs) p) with (run evs (step ev p)).
  rewrite IH; [by apply step_loaded | | done].
  apply (quiet_step ev p p (quiet_refl p Ht)).
Qed.

Lemma imgs_loaded (e : Env) (c : NavConnection) (d : Document) :
  imgs (page_load e c d) = mark_complete (registered_images d) (d_imgs d).
Proof. by rewrite page_load_closed. Qed.

Lemma elem_of_registered (d : Document) (i : nat) (im : Img) :
  d_imgs d !! i = Some im → is_lazy im = true → i ∈ registered_images d.
Proof. intros H1 H2. apply elem_of_select. eauto. Qed.

Lemma tracking_loaded (e : Env) (c : NavConnection) (d : Document) (r : Registration) :
  r ∈ tracking_regs (registered_images d) (d_imgs d) →
  r ∈ listeners (page_load e c d).
Proof.
  intros Hr. rewrite page_load_closed. unfold loaded_page, init_regs. simpl.
  apply elem_of_app. right. apply elem_of_app. by left.
Qed.





(** C3, as stated, fails: an image without [loading="lazy"] is not tracked.
    The eager logo of the demo page is complete, yet loading the page gives
    it no class and no listener, and neither a load nor an error event
    changes anything for it. *)
Lemma eager_image_untracked :
  d_imgs demo_doc !! 2 = Some (mkImg (Some "logo.png") None None true [] 40 40 40 40) ∧
  filter (λ r, bool_decide (reg_target r = TImg 2)) (listeners demo_page) = [] ∧
  classes 2 demo_page = [] ∧
  step (ImgLoaded 2) demo_page = demo_page ∧
  step (ImgFailed 2) demo_page = demo_page.
Proof. repeat split. Qed.

(** C3 (as amended).  Load-outcome tracking covers every image that
    carries [loading="lazy"], whether or not it also carries [data-src]:
    for such an image the completion flag is consulted; a complete image
    has the loaded class once the page has loaded, and an incomplete one
    has both listeners attached, so that after any history a load event
    gives it the loaded class and an error event the error class. *)
Theorem lazy_images_tracked
    (e : Env) (c : NavConnection) (d : Document) (i : nat) (im : Img)
    (evs : list Event) :
  d_imgs d !! i = Some im → is_lazy im = true →
  let P := page_load e c d in
  let p := run evs P in
  (img_complete im = true → "loaded" ∈ classes i P) ∧
  (img_complete im = false →
   fade_reg i ∈ listeners P ∧ error_reg i ∈ listeners P ∧
   "loaded" ∈ classes i (step (ImgLoaded i) p) ∧
   "error" ∈ classes i (step (ImgFailed i) p)).
Proof.
  intros Him Hlazy. cbv zeta.
  pose proof (elem_of_registered d i im Him Hlazy) as Hreg.
  pose proof (quiet_reachable e c d evs) as Hq.
  split.
  - intros Hc. unfold classes. rewrite imgs_loaded.
    by eapply mark_complete_loaded.
  - intros Hc.
    assert (Hfade : fade_reg i ∈ listeners (page_load e c d)).
    { apply tracking_loaded, elem_of_tracking_regs. exists i.
      rewrite Him. simpl. eauto. }
    assert (Herr : error_reg i ∈ listeners (page_load e c d)).
    { apply tracking_loaded, elem_of_tracking_regs. exists i.
      rewrite Him. simpl. eauto. }
    assert (Hlen : i < length (imgs (run evs (page_load e c d)))).
    { destruct Hq as (_ & _ & _ & _ & _ & _ & _ & ->).
      rewrite imgs_loaded, length_mark_complete. by eapply lookup_lt_Some. }
    repeat split; try done.
    + apply load_event_marks; [apply Hq | done |].
      by apply (quiet_keeps _ _ _ Hq).
    + rewrite error_event.
      * unfold markError.
        change (classes i (console_call ?w ?q)) with (classes i q).
        rewrite classes_classList_add, decide_True by done.
        apply elem_of_ClassList_add. by left.
      * destruct Hq as (_ & _ & _ & _ & _ & -> & _); [|done].
        rewrite error_listeners_loaded, bool_decide_eq_true_2 by done.
        rewrite Him. simpl. by rewrite Hc.
Qed.

(** The first image of the demo page: lazy, deferred, and not complete. *)
Lemma lazy_images_tracked_witness :
  (d_imgs demo_doc !! 0
   = Some (mkImg (Some "placeholder.png") (Some "photo.jpg") (Some "lazy") false []
             0 0 0 0) ∧
   is_lazy (mkImg (Some "placeholder.png") (Some "photo.jpg") (Some "lazy") false []
              0 0 0 0) = true) ∧
  let p := run [Scroll] demo_page in
  (false = true → "loaded" ∈ classes 0 demo_page) ∧
  (false = false →
   fade_reg 0 ∈ listeners demo_page ∧ error_reg 0 ∈ listeners demo_page ∧
   "loaded" ∈ classes 0 (step (ImgLoaded 0) p) ∧
   "error" ∈ classes 0 (step (ImgFailed 0) p)).
Proof.
  split; [split; reflexivity|].
  apply (lazy_images_tracked demo_env (NetworkInformation "4g") demo_doc 0 _
           [Scroll] eq_refl eq_refl).
Defined.

(** C4, as stated, fails for images the tracking does not cover.  On the
    demo page a failed fetch of the eager logo leaves no trace at all; and
    the deferred image whose placeholder was complete at registration got
    the loaded class then, so when its real source is activated and fails
    to load it keeps that class, gets no error class, and nothing is
    logged. *)
Lemma failed_fetch_unreported :
  (classes 2 (step (ImgFailed 2) demo_page) = [] ∧
   console (step (ImgFailed 2) demo_page) = []) ∧
  let p := run [Intersection [mkEntry 4 true]; ImgFailed 4] demo_page in
  src_attr 4 p = Some "late.jpg" ∧ classes 4 p = ["loaded"] ∧ console p = [].
Proof. repeat split. Qed.

(** C4 (as amended).  For every image that carries [loading="lazy"] and was
    not complete when [progressiveImageLoad] ran, and after any history of
    events, an error event on the image adds the error class and nothing
    else to its class list, and emits exactly one warning, which carries
    the image's source; the event never adds the loaded class, which the
    image has only if its markup had it or a load event occurred. *)
Theorem failed_image_marked
    (e : Env) (c : NavConnection) (d : Document) (i : nat) (im : Img)
    (evs : list Event) :
  d_imgs d !! i = Some im → is_lazy im = true → img_complete im = false →
  let p := run evs (page_load e c d) in
  let q := step (ImgFailed i) p in
  classes i q = ClassList.add "error" (classes i p) ∧
  console q = console p ++ [Warn ["Failed to load image:"; src_of i p]] ∧
  ("loaded" ∈ classes i q ↔ "loaded" ∈ classes i p) ∧
  (forallb (λ ev, negb (is_load_of i ev)) evs = true →
   ("loaded" ∈ classes i q ↔ "loaded" ∈ img_classList im)).
Proof.
  intros Him Hlazy Hc. cbv zeta.
  pose proof (elem_of_registered d i im Him Hlazy) as Hreg.
  pose proof (quiet_reachable e c d evs) as Hq.
  set (p := run evs (page_load e c d)) in *.
  assert (Hlen : i < length (imgs p)).
  { destruct Hq as (_ & _ & _ & _ & _ & _ & _ & ->).
    rewrite imgs_loaded, length_mark_complete. by eapply lookup_lt_Some. }
  assert (Hstep : step (ImgFailed i) p = markError (TImg i) p).
  { apply error_event.
    destruct Hq as (_ & _ & _ & _ & _ & -> & _); [|done].
    rewrite error_listeners_loaded, bool_decide_eq_true_2 by done.
    rewrite Him. simpl. by rewrite Hc. }
  assert (Hcls : classes i (step (ImgFailed i) p)
                 = ClassList.add "error" (classes i p)).
  { rewrite Hstep. unfold markError.
    change (classes i (console_call ?w ?q)) with (classes i q).
    by rewrite classes_classList_add, decide_True. }
  assert (Hiff : "loaded" ∈ classes i (step (ImgFailed i) p)
                 ↔ "loaded" ∈ classes i p).
  { rewrite Hcls, elem_of_ClassList_add. naive_solver. }
  assert (Hrun : forallb (λ ev, negb (is_load_of i ev)) evs = true →
            ("loaded" ∈ classes i p ↔ "loaded" ∈ img_classList im)).
  { intros Hall. unfold p.
    rewrite (run_loaded evs i _ (script_table_loaded e c d) Hall).
    unfold classes. rewrite imgs_loaded, mark_complete_pending.
    - by rewrite Him.
    - rewrite Him. simpl. done. }
  split; [done|]. split; [by rewrite Hstep|]. split; [done|].
  intros Hall. rewrite Hiff. by apply Hrun.
Qed.

(** The first image of the demo page fails to load after its activation. *)
Lemma failed_image_marked_witness :
  (d_imgs demo_doc !! 0
   = Some (mkImg (Some "placeholder.png") (Some "photo.jpg") (Some "lazy") false []
             0 0 0 0) ∧
   is_lazy (mkImg (Some "placeholder.png") (Some "photo.jpg") (Some "lazy") false []
              0 0 0 0) = true ∧
   img_complete (mkImg (Some "placeholder.png") (Some "photo.jpg") (Some "lazy")
                   false [] 0 0 0 0) = false) ∧
  let p := run [Intersection [mkEntry 0 true]] demo_page in
  let q := step (ImgFailed 0) p in
  classes 0 q = ClassList.add "error" (classes 0 p) ∧
  console q = console p ++ [Warn ["Failed to load image:"; src_of 0 p]] ∧
  ("loaded" ∈ classes 0 q ↔ "loaded" ∈ classes 0 p) ∧
  (forallb (λ ev, negb (is_load_of 0 ev)) [Intersection [mkEntry 0 true]] = true →
   ("loaded" ∈ classes 0 q ↔ "loaded" ∈ @nil string)).
Proof.
  split; [split; [reflexivity | split; reflexivity] |].
  apply (failed_image_marked demo_env (NetworkInformation "4g") demo_doc 0 _
           [Intersection [mkEntry 0 true]] eq_refl eq_refl eq_refl).
Defined.

(** * Further properties of the script *)

(** ** Dispatch, once more: with the origin of each listener *)

Lemma dispatchEvent_member (P : Page → Prop) (t : Target) (ty : EventType) (p : Page) :
  script_table p → P p →
  (∀ r q, r ∈ listeners p → known_reg r = true → reg_target r = t →
          reg_type r = ty → P q → P (invoke r q)) →
  P (dispatchEvent t ty p).
Proof.
  intros Ht Hp Hstep. unfold dispatchEvent. apply forEach_inv; [done|].
  intros r q Hr Hq. apply list_elem_of_filter in Hr as [Hl Hr].
  unfold listens in Hl. apply Is_true_true, andb_true_iff in Hl as [H1 H2].
  apply bool_decide_eq_true in H1, H2.
  apply Hstep; try done.
  unfold script_table in Ht. rewrite Forall_forall in Ht. by apply Ht.
Qed.

(** The fields a known listener leaves alone, by handler. *)
Lemma invoke_known_fields (r : Registration) (p : Page) :
  known_reg r = true → reg_type r ≠ DOMContentLoaded →
  let q := invoke r p in
  observed q = observed p ∧ src_assignments q = src_assignments p ∧
  aos_calls q = aos_calls p ∧
  attributes <$> imgs q = attributes <$> imgs p ∧
  (reg_handler r ≠ ThrottleScroll →
   ticking q = ticking p ∧ raf_queue q = raf_queue p) ∧
  (reg_handler r ≠ MeasureSize → largeImages q = largeImages p) ∧
  (reg_handler r ≠ PrefetchOnEnter → head q = head p) ∧
  (reg_handler r ≠ MarkError → reg_handler r ≠ NetworkChange →
   reg_handler r ≠ ReportLargeImages → console q = console p).
Proof.
  intros Hk Hty. cbv zeta.
  destruct (invoke_known r p Hk Hty)
    as [(i & -> & ->)|[(i & -> & ->)|[(i & -> & ->)|[[-> ->]|[[-> ->]|[[-> ->]|
        [(j & -> & ->)|[-> ->]]]]]]]].
  - repeat split; try done. simpl. apply attributes_alter_classList.
  - repeat split; try done. simpl. apply attributes_alter_classList.
  - unfold measureSize. destruct (imgs p !! i); [|done].
    by destruct (Num.gt _ _).
  - done.
  - unfold throttleScroll. by destruct (negb _).
  - unfold networkChange. destruct (connection p) as [| |t]; try done.
    by destruct (low_bandwidth t).
  - done.
  - rewrite reportLargeImages_eq. by destruct (0 <? _)%nat.
Qed.

(** ** Registration of deferred images (lines 10, 29-33) *)

(** X1.  After loading, the observer watches exactly the images whose
    markup carries a [data-src] attribute (empty or not), and only if the
    IntersectionObserver API exists and [DOMContentLoaded] was still to
    come when the script ran (the document was loading, or it was
    interactive and the script ran before the event); otherwise it
    watches nothing. *)
Theorem deferred_images_registered
    (e : Env) (c : NavConnection) (d : Document) (i : nat) :
  i ∈ observed (page_load e c d) ↔
  observer_armed e = true ∧
  ∃ im, d_imgs d !! i = Some im ∧ is_Some (img_data_src im).
Proof.
  rewrite page_load_closed. cbn [observed loaded_page]. unfold observer_armed.
  destruct (awaits_DOMContentLoaded e && has_IntersectionObserver e).
  - rewrite elem_of_list_to_set, elem_of_select. split.
    + intros (im & Him & Hs). split; [done|]. exists im. split; [done|].
      by apply bool_decide_eq_true in Hs.
    + intros (_ & im & Him & Hs). exists im. split; [done|].
      by apply bool_decide_eq_true.
  - split; [by intros ?%not_elem_of_empty | by intros [? _]].
Qed.

(** An event on a page that observes nothing assigns no source and
    observes nothing. *)
Lemma step_unobserving (ev : Event) (p : Page) :
  script_table p → observed p = ∅ →
  observed (step ev p) = ∅ ∧ src_assignments (step ev p) = src_assignments p ∧
  attributes <$> imgs (step ev p) = attributes <$> imgs p.
Proof.
  intros Ht Ho.
  assert (Hd : ∀ t ty q, script_table q → ty ≠ DOMContentLoaded →
            observed (dispatchEvent t ty q) = observed q ∧
            src_assignments (dispatchEvent t ty q) = src_assignments q ∧
            attributes <$> imgs (dispatchEvent t ty q) = attributes <$> imgs q).
  { intros t ty q Hq Hty.
    apply (dispatchEvent_known (λ q',
      observed q' = observed q ∧ src_assignments q' = src_assignments q ∧
      attributes <$> imgs q' = attributes <$> imgs q)); [done | done |].
    intros r q' Hk _ Hr (H1 & H2 & H3).
    destruct (invoke_known_fields r q' Hk) as (-> & -> & _ & -> & _).
    { by rewrite Hr. }
    done. }
  destruct ev; simpl.
  - unfold deliver.
    rewrite (filter_none (λ en, bool_decide (target en ∈ observed p))); [done|].
    intros en _. rewrite Ho. apply bool_decide_eq_false_2, not_elem_of_empty.
  - destruct (Hd (TImg i) load p Ht) as (-> & -> & ->); done.
  - destruct (Hd (TImg i) error p Ht) as (-> & -> & ->); done.
  - destruct (Hd (TAnchor j) mouseenter p Ht) as (-> & -> & ->); done.
  - destruct (connection p); try done.
    destruct (Hd TConnection change
                (set_connection (NetworkInformation effectiveType) p) Ht)
      as (-> & -> & ->); done.
  - destruct (Hd TWindow scroll p Ht) as (-> & -> & ->); done.
  - destruct (Hd TDocument touchstart p Ht) as (-> & -> & ->); done.
  - apply (forEach_inv (λ q, observed q = ∅ ∧
                             src_assignments q = src_assignments p ∧
                             attributes <$> imgs q = attributes <$> imgs p));
      [done|].
    by intros [] q _ (? & ? & ?).
  - destruct (Hd TWindow load p Ht) as (-> & -> & ->); done.
Qed.

(** X2.  When the script runs after [DOMContentLoaded] has been
    dispatched, or the IntersectionObserver API is missing, no image is
    ever observed: through every sequence of events no source is assigned
    and every image keeps the [src] and [data-src] attributes of its
    markup. *)
Theorem late_script_never_activates
    (e : Env) (c : NavConnection) (d : Document) (evs : list Event) (i : nat) :
  observer_armed e = false →
  let p := run evs (page_load e c d) in
  observed p = ∅ ∧ src_assignments p = [] ∧
  src_attr i p = d_imgs d !! i ≫= img_src ∧
  dataset_src i p = markup_data_src d i.
Proof.
  intros Hoff. cbv zeta.
  assert (Hinv : ∀ l q, script_table q → observed q = ∅ →
            observed (run l q) = ∅ ∧ src_assignments (run l q) = src_assignments q ∧
            attributes <$> imgs (run l q) = attributes <$> imgs q).
  { induction l as [|ev l IH]; intros q Hq Ho; [done|].
    change (run (ev :: l) q) with (run l (step ev q)).
    destruct (step_unobserving ev q Hq Ho) as (Ho' & Ha' & Hi').
    destruct (IH (step ev q)) as (-> & -> & ->); [|done|done].
    apply (quiet_step ev q q (quiet_refl q Hq)). }
  destruct (Hinv evs (page_load e c d)) as (Ho & Ha & Hi).
  { apply script_table_loaded. }
  { rewrite page_load_closed. cbn [observed loaded_page].
    unfold observer_armed in Hoff. by rewrite Hoff. }
  rewrite Ho, Ha.
  assert (Hattr : attributes <$> imgs (run evs (page_load e c d))
                  = attributes <$> d_imgs d).
  { rewrite Hi, page_load_closed. cbn [imgs loaded_page].
    apply attributes_mark_complete. }
  destruct (attributes_lookup _ _ i Hattr) as [Hs Hd].
  unfold src_attr, dataset_src, markup_data_src.
  split; [done|]. split; [by rewrite page_load_closed|]. done.
Qed.

(** A page opened by a script that was injected late. *)
Lemma late_script_never_activates_witness :
  observer_armed (mkEnv "Mozilla/5.0" "example.org" true false false Complete id false)
  = false ∧
  let p := run [Intersection [mkEntry 0 true]; Scroll]
             (page_load (mkEnv "Mozilla/5.0" "example.org" true false false
                           Complete id false)
                NotInNavigator demo_doc) in
  observed p = ∅ ∧ src_assignments p = [] ∧
  src_attr 0 p = d_imgs demo_doc !! 0 ≫= img_src ∧
  dataset_src 0 p = markup_data_src demo_doc 0.
Proof.
  split; [reflexivity|].
  apply (late_script_never_activates
           (mkEnv "Mozilla/5.0" "example.org" true false false Complete id false)
           NotInNavigator demo_doc [Intersection [mkEntry 0 true]; Scroll] 0).
  reflexivity.
Defined.

(** ** The observer callback on a batch (lines 12-23) *)

(** X3.  A batch in which every entry about an image is non-intersecting
    (in particular a batch with no entry about it) leaves that image, its
    observation and the sources assigned to it exactly as they were,
    whatever the batch does to other images. *)
Theorem unreported_image_untouched
    (p : Page) (es : list Entry) (i : nat) :
  Forall (λ en, target en = i → isIntersecting en = false) es →
  let q := imageObserver es p in
  imgs q !! i = imgs p !! i ∧ (i ∈ observed q ↔ i ∈ observed p) ∧
  assignments_to i q = assignments_to i p.
Proof.
  intros Hall. cbv zeta. unfold imageObserver.
  apply (forEach_inv (λ q,
    imgs q !! i = imgs p !! i ∧ (i ∈ observed q ↔ i ∈ observed p) ∧
    assignments_to i q = assignments_to i p)); [done|].
  intros en q Hen (H1 & H2 & H3). rewrite Forall_forall in Hall.
  destruct (decide (target en = i)) as [Heq|Hne].
  - unfold imageObserver_entry. by rewrite (Hall en Hen Heq).
  - destruct (imageObserver_entry_other en i q Hne) as (-> & -> & ->). done.
Qed.

(** Two deferred images, only the first reported as intersecting. *)
Lemma unreported_image_untouched_witness :
  Forall (λ en, target en = 4 → isIntersecting en = false)
    [mkEntry 0 true; mkEntry 4 false] ∧
  let q := imageObserver [mkEntry 0 true; mkEntry 4 false] demo_page in
  imgs q !! 4 = imgs demo_page !! 4 ∧
  (4 ∈ observed q ↔ 4 ∈ observed demo_page) ∧
  assignments_to 4 q = assignments_to 4 demo_page.
Proof.
  assert (H : Forall (λ en, target en = 4 → isIntersecting en = false)
                [mkEntry 0 true; mkEntry 4 false]).
  { repeat constructor; simpl; intros; done. }
  split; [exact H|].
  apply (unreported_image_untouched demo_page
           [mkEntry 0 true; mkEntry 4 false] 4 H).
Defined.

(** ** Every image is activated at most once, with its own pending source *)

Lemma activated_once_at_rest (d : Document) (i : nat) (p q : Page) :
  activated_once d i p → at_rest i p q → activated_once d i q.
Proof.
  intros (u & Ha & Hm & Ht & Hs & Hd & Ho) [(Hd' & Hs' & Ha') Ho'].
  exists u. by rewrite Ha', Hs'.
Qed.

Lemma activated_once_rest (d : Document) (i : nat) (p : Page) :
  activated_once d i p → at_rest i p p.
Proof. intros (u & Ha & Hm & Ht & Hs & Hd & Ho). by repeat split. Qed.

Lemma untouched_frame (d : Document) (i : nat) (p q : Page) :
  attributes <$> imgs q = attributes <$> imgs p →
  src_assignments q = src_assignments p →
  untouched d i p → untouched d i q.
Proof.
  intros Hi Hl (Ha & Hs & Hd).
  destruct (attributes_lookup _ _ i Hi) as [Hs' Hd'].
  unfold untouched, assignments_to, src_attr, dataset_src in *.
  by rewrite Hl, Hs', Hd'.
Qed.

(** One entry of a batch: an untouched image stays so or is activated. *)
Lemma entry_dichotomy (d : Document) (i : nat) (en : Entry) (p : Page) :
  untouched d i p →
  untouched d i (imageObserver_entry en p) ∨
  activated_once d i (imageObserver_entry en p).
Proof.
  intros (Ha & Hs & Hd).
  destruct (decide (target en = i)) as [Heq|Hne].
  - destruct (isIntersecting en) eqn:Hint.
    + destruct (dataset_src i p) as [u|] eqn:Hu.
      * destruct (Str.truthy u) eqn:Htr.
        -- right. destruct en as [t b]. simpl in *. subst t b.
           destruct (imageObserver_entry_activate i u p Hu Htr)
             as (Hs' & [Hd' Ho'] & Ha').
           exists u. rewrite Ha', Ha. by repeat split.
        -- left. unfold imageObserver_entry. rewrite Hint, Heq. cbv zeta.
           rewrite Hu, Htr. rewrite <- Hu in Hd.
           by apply (untouched_frame d i p).
      * left. unfold imageObserver_entry. rewrite Hint, Heq. cbv zeta.
        rewrite Hu. rewrite <- Hu in Hd. by apply (untouched_frame d i p).
    + left. unfold imageObserver_entry. by rewrite Hint.
  - left. destruct (imageObserver_entry_other en i p Hne) as (Hi & _ & Hl).
    unfold untouched, src_attr, dataset_src in *. by rewrite Hi, Hl.
Qed.

Lemma batch_dichotomy (d : Document) (i : nat) (es : list Entry) (p : Page) :
  untouched d i p ∨ activated_once d i p →
  untouched d i (imageObserver es p) ∨ activated_once d i (imageObserver es p).
Proof.
  unfold imageObserver. intros H. apply forEach_inv; [done|].
  intros en q _ [Hu|Hact].
  - by apply entry_dichotomy.
  - right. apply (activated_once_at_rest d i q); [done|].
    destruct (activated_once_rest d i q Hact) as [Hs Ho].
    destruct (imageObserver_entry_settled en i q q Hs) as (Hs' & Hk & _).
    split; [done | by apply Hk].
Qed.

Lemma step_dichotomy (d : Document) (i : nat) (ev : Event) (p : Page) :
  script_table p →
  untouched d i p ∨ activated_once d i p →
  untouched d i (step ev p) ∨ activated_once d i (step ev p).
Proof.
  intros Ht [Hu|Hact].
  - assert (Hd : ∀ t ty q, script_table q → ty ≠ DOMContentLoaded →
              untouched d i q → untouched d i (dispatchEvent t ty q)).
    { intros t ty q Hq Hty Hq'.
      apply (dispatchEvent_known (untouched d i)); [done | done |].
      intros r q' Hk _ Hr Hq''.
      destruct (invoke_known_fields r q' Hk) as (_ & Hl & _ & Hi & _).
      { by rewrite Hr. }
      by apply (untouched_frame d i q'). }
    destruct ev; simpl; try (left; by apply Hd).
    + apply batch_dichotomy. by left.
    + left. destruct (connection p); try done.
      apply Hd; [done | done |]. by apply (untouched_frame d i p).
    + left. apply forEach_inv.
      * by apply (untouched_frame d i p).
      * intros [] q _. by apply (untouched_frame d i q).
  - right. apply (activated_once_at_rest d i p); [done|].
    apply step_at_rest. by apply (activated_once_rest d).
Qed.

(** X4.  On a loaded page, after any sequence of events, every image is in
    one of two states: untouched (no source was ever assigned and its
    [src] and [data-src] are those of the markup), or activated exactly
    once (one assignment, of the non-empty [data-src] of its markup, which
    is now its [src]; the attribute is gone and the image is unobserved). *)
Theorem image_untouched_or_activated_once
    (e : Env) (c : NavConnection) (d : Document) (evs : list Event) (i : nat) :
  let p := run evs (page_load e c d) in
  untouched d i p ∨ activated_once d i p.
Proof.
  cbv zeta.
  assert (Hinv : ∀ l q, script_table q →
            untouched d i q ∨ activated_once d i q →
            untouched d i (run l q) ∨ activated_once d i (run l q)).
  { induction l as [|ev l IH]; intros q Hq H; [done|].
    change (run (ev :: l) q) with (run l (step ev q)).
    apply IH; [|by apply step_dichotomy].
    apply (quiet_step ev q q (quiet_refl q Hq)). }
  apply Hinv; [apply script_table_loaded|]. left.
  assert (Hattr : attributes <$> imgs (page_load e c d) = attributes <$> d_imgs d).
  { rewrite page_load_closed. cbn [imgs loaded_page].
    apply attributes_mark_complete. }
  destruct (attributes_lookup _ _ i Hattr) as [Hs Hd].
  unfold untouched, assignments_to, src_attr, dataset_src, markup_data_src.
  rewrite Hs, Hd. by rewrite page_load_closed.
Qed.

(** ** Runs, piecewise *)

Lemma run_app (l1 l2 : list Event) (p : Page) :
  run (l1 ++ l2) p = run l2 (run l1 p).
Proof. apply forEach_app. Qed.

Lemma run_snoc (l : list Event) (ev : Event) (p : Page) :
  run (l ++ [ev]) p = step ev (run l p).
Proof. apply run_app. Qed.

(** ** The listeners of a reachable page *)

(** Except for the one-shot hover listeners, the listeners of a target
    are those registered while the page loaded. *)
Lemma listeners_reachable (t : Target) (ty : EventType) (e : Env)
    (c : NavConnection) (d : Document) (evs : list Event) :
  (∀ j, listens t ty (prefetch_reg j) = false) →
  filter (λ r, listens t ty r) (listeners (run evs (page_load e c d))) =
  filter (λ r, listens t ty r) (listeners (page_load e c d)).
Proof.
  intros H.
  destruct (quiet_reachable e c d evs) as (_ & _ & _ & _ & _ & Hf & _).
  by apply (Hf (listens t ty)).
Qed.

Lemma scroll_listeners_loaded (e : Env) (c : NavConnection) (d : Document) :
  filter (λ r, listens TWindow scroll r) (listeners (page_load e c d)) =
  [scroll_reg].
Proof.
  rewrite (filter_loaded (listens TWindow scroll)).
  rewrite filter_dcl_regs by done.
  rewrite filter_tracking_other by done.
  rewrite filter_app.
  assert (H1 : filter (λ r, listens TWindow scroll r)
                 (if has_ontouchstart e then [touch_reg] else []) = []).
  { by destruct (has_ontouchstart e). }
  rewrite H1.
  destruct (is_nullish c); [done|].
  assert (H2 : filter (λ r, listens TWindow scroll r) (network_regs c) = []).
  { by destruct c. }
  rewrite H2, filter_fmap_none by done.
  destruct (localhost e); [|done].
  by rewrite filter_fmap_none.
Qed.

Lemma touch_listeners_loaded (e : Env) (c : NavConnection) (d : Document) :
  filter (λ r, listens TDocument touchstart r) (listeners (page_load e c d)) =
  if has_ontouchstart e then [touch_reg] else [].
Proof.
  rewrite (filter_loaded (listens TDocument touchstart)).
  rewrite filter_dcl_regs by done.
  rewrite filter_tracking_other by done.
  rewrite filter_app.
  assert (H2 : filter (λ r, listens TDocument touchstart r) (network_regs c) = []).
  { by destruct c. }
  destruct (is_nullish c).
  - by destruct (has_ontouchstart e).
  - rewrite H2, filter_fmap_none by done.
    destruct (localhost e).
    + rewrite filter_fmap_none by done. by destruct (has_ontouchstart e).
    + by destruct (has_ontouchstart e).
Qed.

(** ** The scroll throttle *)

Lemma imageObserver_scheduling (es : list Entry) (p : Page) :
  let q := imageObserver es p in
  ticking q = ticking p ∧ raf_queue q = raf_queue p ∧
  largeImages q = largeImages p ∧ aos_calls q = aos_calls p.
Proof.
  cbv zeta. unfold imageObserver. apply forEach_inv; [done|].
  intros en q _ (H1 & H2 & H3 & H4).
  rewrite <- H1, <- H2, <- H3, <- H4.
  unfold imageObserver_entry. destruct (isIntersecting en); [|done]. cbv zeta.
  destruct (dataset_src (target en) q) as [u|]; [destruct (Str.truthy u)|];
    done.
Qed.

Lemma throttleScroll_consistent (p : Page) :
  throttle_consistent p → throttle_consistent (throttleScroll p).
Proof.
  unfold throttle_consistent, throttleScroll. intros H.
  destruct (ticking p) eqn:E; simpl; [by rewrite E|].
  by rewrite H.
Qed.

Lemma step_throttle (ev : Event) (p : Page) :
  script_table p → throttle_consistent p → throttle_consistent (step ev p).
Proof.
  intros Ht H.
  assert (Hd : ∀ t ty q, script_table q → ty ≠ DOMContentLoaded →
            throttle_consistent q → throttle_consistent (dispatchEvent t ty q)).
  { intros t ty q Hq Hty Hq'.
    apply (dispatchEvent_known throttle_consistent); [done | done |].
    intros r q' Hk _ Hr Hq''.
    destruct (decide (reg_handler r = ThrottleScroll)) as [Hh|Hh].
    - assert (r = scroll_reg) as ->.
      { unfold known_reg in Hk. rewrite Hh in Hk.
        by apply bool_decide_eq_true in Hk. }
      by apply throttleScroll_consistent.
    - destruct (invoke_known_fields r q' Hk) as (_ & _ & _ & _ & Hs & _).
      { by rewrite Hr. }
      destruct (Hs Hh) as [H1 H2].
      unfold throttle_consistent. by rewrite H1, H2. }
  destruct ev; simpl; try by apply Hd.
  - unfold deliver.
    destruct (imageObserver_scheduling
                (filter (λ en, bool_decide (target en ∈ observed p)) entries) p)
      as (H1 & H2 & _).
    unfold throttle_consistent. by rewrite H1, H2.
  - destruct (connection p); try done. by apply Hd.
  - unfold throttle_consistent in *. rewrite H.
    destruct (ticking p) eqn:E; simpl; [done | by rewrite E].
Qed.

Lemma reachable_throttle (e : Env) (c : NavConnection) (d : Document)
    (evs : list Event) :
  throttle_consistent (run evs (page_load e c d)).
Proof.
  assert (Hinv : ∀ l q, script_table q → throttle_consistent q →
            throttle_consistent (run l q)).
  { induction l as [|ev l IH]; intros q Hq H; [done|].
    change (run (ev :: l) q) with (run l (step ev q)).
    apply IH; [|by apply step_throttle].
    apply (quiet_step ev q q (quiet_refl q Hq)). }
  apply Hinv; [apply script_table_loaded|].
  unfold throttle_consistent. by rewrite page_load_closed.
Qed.

Lemma scroll_reachable (e : Env) (c : NavConnection) (d : Document)
    (evs : list Event) :
  step Scroll (run evs (page_load e c d)) =
  throttleScroll (run evs (page_load e c d)).
Proof.
  simpl. unfold dispatchEvent.
  rewrite listeners_reachable by done.
  by rewrite scroll_listeners_loaded.
Qed.

(** X5.  However many scroll events arrive between two animation frames,
    exactly one frame callback is pending; the next frame clears the
    [ticking] flag and leaves no callback behind.  On every reachable page
    a callback is queued exactly when [ticking] is set. *)
Theorem scroll_burst_schedules_one_frame
    (e : Env) (c : NavConnection) (d : Document) (evs : list Event) (n : nat) :
  let p := run evs (page_load e c d) in
  let q := run (replicate (S n) Scroll) p in
  throttle_consistent p ∧
  ticking q = true ∧ raf_queue q = [ResetTicking] ∧
  ticking (step AnimationFrame q) = false ∧
  raf_queue (step AnimationFrame q) = [].
Proof.
  cbv zeta. split; [apply reachable_throttle|].
  assert (Hrun : run (replicate (S n) Scroll) (run evs (page_load e c d)) =
                 step Scroll (run (evs ++ replicate n Scroll) (page_load e c d))).
  { rewrite replicate_S_end, <- run_app, app_assoc. apply run_snoc. }
  assert (Hq : ticking (run (replicate (S n) Scroll) (run evs (page_load e c d)))
               = true).
  { rewrite Hrun, scroll_reachable. unfold throttleScroll.
    set (x := run (evs ++ replicate n Scroll) (page_load e c d)).
    by destruct (ticking x) eqn:E. }
  pose proof (reachable_throttle e c d (evs ++ replicate (S n) Scroll)) as Hc.
  rewrite run_app in Hc. unfold throttle_consistent in Hc. rewrite Hq in Hc.
  split; [done|]. split; [done|].
  change (step AnimationFrame ?p)
    with (forEach (raf_queue p) run_raf (set_raf_queue (λ _, []) p)).
  by rewrite Hc.
Qed.

(** X6.  On every reachable page a [touchstart] event changes nothing, and
    a second scroll event before the next animation frame changes nothing
    either. *)
Theorem touch_and_repeated_scroll_change_nothing
    (e : Env) (c : NavConnection) (d : Document) (evs : list Event) :
  let p := run evs (page_load e c d) in
  step TouchStart p = p ∧ step Scroll (step Scroll p) = step Scroll p.
Proof.
  cbv zeta. split.
  - simpl. unfold dispatchEvent. rewrite listeners_reachable by done.
    rewrite touch_listeners_loaded. by destruct (has_ontouchstart e).
  - set (p := run evs (page_load e c d)).
    assert (Ht : ticking (step Scroll p) = true).
    { unfold p. rewrite scroll_reachable. unfold throttleScroll. fold p.
      by destruct (ticking p) eqn:E. }
    pose proof (scroll_reachable e c d (evs ++ [Scroll])) as H2.
    rewrite run_snoc in H2. fold p in H2. rewrite H2.
    unfold throttleScroll at 1. by rewrite Ht.
Qed.

(** ** The document head and the one-shot hover listeners *)

(** Only a hover over an anchor that still has its listener adds to
    [document.head]. *)
Lemma step_head (ev : Event) (p : Page) :
  script_table p →
  (∀ j, ev = PointerEnter j → armed j p = 0) →
  head (step ev p) = head p.
Proof.
  intros Ht Hj.
  assert (Hd : ∀ t ty q, script_table q → ty ≠ DOMContentLoaded →
            ty ≠ mouseenter → head (dispatchEvent t ty q) = head q).
  { intros t ty q Hq Hty Hm.
    apply (dispatchEvent_known (λ q', head q' = head q)); [done | done |].
    intros r q' Hk _ Hr Hq''. rewrite <- Hq''.
    destruct (invoke_known_fields r q' Hk) as (_ & _ & _ & _ & _ & _ & Hh & _).
    { by rewrite Hr. }
    apply Hh. intros Hp. unfold known_reg in Hk. rewrite Hp in Hk.
    destruct (reg_target r); try done.
    apply bool_decide_eq_true in Hk. subst r. simpl in Hr. congruence. }
  destruct ev; try by apply Hd.
  - simpl. unfold deliver.
    by destruct (imageObserver_frame
                (filter (λ en, bool_decide (target en ∈ observed p)) entries) p)
      as (_ & _ & _ & _ & Hh & _).
  - by rewrite hover_spent by by apply Hj.
  - simpl. destruct (connection p); try done. by rewrite Hd.
  - simpl. apply (forEach_inv (λ q, head q = head p)); [done|].
    by intros [] q _.
Qed.

(** Events other than a hover over anchor [j] leave its listeners alone. *)
Lemma step_armed_other (j : nat) (ev : Event) (p : Page) :
  script_table p → is_enter_of j ev = false →
  filter (λ r, listens (TAnchor j) mouseenter r) (listeners (step ev p)) =
  filter (λ r, listens (TAnchor j) mouseenter r) (listeners p).
Proof.
  intros Ht Hev.
  assert (Hd : ∀ t ty q, script_table q → ty ≠ DOMContentLoaded →
            (t = TAnchor j → ty ≠ mouseenter) →
            filter (λ r, listens (TAnchor j) mouseenter r)
              (listeners (dispatchEvent t ty q)) =
            filter (λ r, listens (TAnchor j) mouseenter r) (listeners q)).
  { intros t ty q Hq Hty Hm.
    apply (dispatchEvent_known
             (λ q', filter (λ r, listens (TAnchor j) mouseenter r) (listeners q') =
                    filter (λ r, listens (TAnchor j) mouseenter r) (listeners q)));
      [done | done |].
    intros r q' Hk Hrt Hr Hq''. rewrite <- Hq''.
    destruct (invoke_known_frame r q' Hk) as (_ & _ & _ & _ & Hl & _).
    { by rewrite Hr. }
    rewrite Hl. destruct (reg_once r); [|done].
    apply (filter_remove_first (listens (TAnchor j) mouseenter)).
    unfold listens. rewrite Hrt, Hr.
    destruct (decide (t = TAnchor j)) as [Heq|Hne].
    - rewrite (bool_decide_eq_false_2 (ty = mouseenter)) by by apply Hm.
      apply andb_false_r.
    - by rewrite (bool_decide_eq_false_2 (t = TAnchor j)). }
  destruct ev; try by apply Hd.
  - simpl. unfold deliver.
    destruct (imageObserver_frame
                (filter (λ en, bool_decide (target en ∈ observed p)) entries) p)
      as (_ & _ & _ & _ & _ & Hl & _).
    by rewrite Hl.
  - simpl in Hev. apply bool_decide_eq_false in Hev.
    apply Hd; [done | done |]. intros Heq. by injection Heq.
  - simpl. destruct (connection p); try done. by rewrite Hd.
  - simpl.
    apply (forEach_inv (λ q, filter _ (listeners q) = filter _ (listeners p)));
      [done|].
    by intros [] q _.
Qed.

Lemma run_armed_other (j : nat) (evs : list Event) (p : Page) :
  script_table p → forallb (λ ev, negb (is_enter_of j ev)) evs = true →
  armed j (run evs p) = armed j p.
Proof.
  revert p. induction evs as [|ev evs IH]; intros p Ht Hevs; [done|].
  simpl in Hevs. apply andb_true_iff in Hevs as [Hev Hevs].
  apply negb_true_iff in Hev.
  change (run (ev :: evs) p) with (run evs (step ev p)).
  rewrite IH; [|apply (quiet_step ev p p (quiet_refl p Ht))|done].
  unfold armed. by rewrite step_armed_other.
Qed.

Lemma starts_with_append (pat post : string) :
  Str.starts_with false pat (pat +:+ post) = true.
Proof.
  induction pat as [|a pat IH]; [done|]. simpl. rewrite IH.
  unfold Str.char_eq. by rewrite bool_decide_eq_true_2.
Qed.

(** A string that contains [pat] is matched by the selector [*="pat"]. *)
Lemma occurs_append (pat pre post : string) :
  Str.occurs false pat (pre +:+ pat +:+ post) = true.
Proof.
  induction pre as [|a pre IH].
  - change ("" +:+ pat +:+ post) with (pat +:+ post).
    pose proof (starts_with_append pat post) as H.
    destruct (pat +:+ post); simpl; by rewrite H.
  - simpl. rewrite IH. apply orb_true_r.
Qed.

Lemma hover_listeners_loaded (e : Env) (c : NavConnection) (d : Document) (j : nat) :
  filter (λ r, listens (TAnchor j) mouseenter r) (listeners (page_load e c d)) =
  if is_nullish c then []
  else filter (λ r, listens (TAnchor j) mouseenter r)
         (prefetch_reg <$> select is_html_link (d_anchors d)).
Proof.
  rewrite (filter_loaded (listens (TAnchor j) mouseenter)).
  rewrite filter_dcl_regs by done.
  rewrite filter_tracking_other by done.
  rewrite filter_app.
  assert (H1 : filter (λ r, listens (TAnchor j) mouseenter r)
                 (if has_ontouchstart e then [touch_reg] else []) = []).
  { by destruct (has_ontouchstart e). }
  rewrite H1.
  destruct (is_nullish c); [done|].
  assert (H2 : filter (λ r, listens (TAnchor j) mouseenter r) (network_regs c) = []).
  { by destruct c. }
  rewrite H2. simpl.
  destruct (localhost e); [|by rewrite app_nil_r].
  rewrite (filter_fmap_none _ _ measure_reg) by done. by rewrite app_nil_r.
Qed.

Lemma armed_html_link (e : Env) (c : NavConnection) (d : Document) (j : nat) :
  is_nullish c = false → j ∈ select is_html_link (d_anchors d) →
  armed j (page_load e c d) = 1.
Proof.
  intros Hc Hj. pose proof (armed_loaded e c d j) as Hle.
  unfold armed in *. rewrite hover_listeners_loaded, Hc in *.
  assert (Hin : prefetch_reg j ∈
            filter (λ r, listens (TAnchor j) mouseenter r)
              (prefetch_reg <$> select is_html_link (d_anchors d))).
  { apply list_elem_of_filter. split.
    - unfold listens. simpl. by rewrite !bool_decide_eq_true_2.
    - apply list_elem_of_fmap. by exists j. }
  destruct (filter _ _) as [|r l]; [by apply elem_of_nil in Hin|].
  simpl in *. lia.
Qed.

Lemma armed_no_link (e : Env) (c : NavConnection) (d : Document) (j : nat) :
  is_nullish c = true ∨ j ∉ select is_html_link (d_anchors d) →
  armed j (page_load e c d) = 0.
Proof.
  intros H. unfold armed. rewrite hover_listeners_loaded.
  destruct (is_nullish c); [done|]. destruct H as [H|H]; [done|].
  rewrite (filter_none (listens (TAnchor j) mouseenter)); [done|].
  intros r Hr. apply list_elem_of_fmap in Hr as (k & -> & Hk).
  unfold listens. simpl.
  rewrite (bool_decide_eq_false_2 (TAnchor k = TAnchor j)); [done|].
  intros Heq. injection Heq as ->. done.
Qed.

(** X7.  The first time the pointer enters a link whose [href] attribute
    contains [.html], one [<link rel="prefetch">] for the resolved address
    of that link is appended to [document.head], whatever other events came
    before. *)
Theorem first_hover_adds_prefetch_hint
    (e : Env) (c : NavConnection) (d : Document) (evs : list Event)
    (j : nat) (pre post : string) :
  is_nullish c = false →
  d_anchors d !! j ≫= a_href = Some (pre +:+ ".html" +:+ post) →
  forallb (λ ev, negb (is_enter_of j ev)) evs = true →
  let p := run evs (page_load e c d) in
  head (step (PointerEnter j) p) =
  head p ++ [LinkNode "prefetch" (resolve_url e (pre +:+ ".html" +:+ post))].
Proof.
  intros Hc Hj Hevs. cbv zeta.
  pose proof (script_table_loaded e c d) as Ht.
  assert (Hsel : j ∈ select is_html_link (d_anchors d)).
  { destruct (d_anchors d !! j) as [a|] eqn:Ha; [|done]. simpl in Hj.
    apply elem_of_select. exists a. split; [done|].
    unfold is_html_link. rewrite Hj. simpl. apply occurs_append. }
  destruct (quiet_reachable e c d evs) as (Ht' & _ & He & Ha & _).
  destruct (hover_armed j (run evs (page_load e c d)) Ht') as [Hh _].
  { rewrite run_armed_other by done. by apply armed_html_link. }
  rewrite Hh. unfold href_of. rewrite He, Ha, page_load_closed.
  cbn [anchors env loaded_page]. by rewrite Hj.
Qed.

Lemma first_hover_adds_prefetch_hint_witness :
  (is_nullish (NetworkInformation "4g") = false ∧
   d_anchors demo_doc !! 0 ≫= a_href = Some ("galeri/galeri" +:+ ".html" +:+ "") ∧
   forallb (λ ev, negb (is_enter_of 0 ev)) [Scroll; PointerEnter 1] = true) ∧
  head (step (PointerEnter 0) (run [Scroll; PointerEnter 1] demo_page)) =
  head (run [Scroll; PointerEnter 1] demo_page) ++
  [LinkNode "prefetch" (resolve_url demo_env ("galeri/galeri" +:+ ".html" +:+ ""))].
Proof.
  split; [split; [reflexivity | split; reflexivity] |].
  apply (first_hover_adds_prefetch_hint demo_env (NetworkInformation "4g") demo_doc
           [Scroll; PointerEnter 1] 0 "galeri/galeri" ""); reflexivity.
Defined.

(** X8.  A hover changes nothing when the anchor was not selected for
    prefetching: its [href] does not contain [.html], there is no such
    anchor, or [init] stopped before [prefetchCriticalResources] because
    [navigator.connection] was nullish. *)
Theorem hover_elsewhere_changes_nothing
    (e : Env) (c : NavConnection) (d : Document) (evs : list Event) (j : nat) :
  is_nullish c = true ∨
  from_option is_html_link false (d_anchors d !! j) = false →
  let p := run evs (page_load e c d) in
  step (PointerEnter j) p = p.
Proof.
  intros H. cbv zeta. apply hover_spent.
  pose proof (armed_run j evs _ (script_table_loaded e c d)) as Hle.
  rewrite armed_no_link in Hle; [lia|].
  destruct H as [H|H]; [by left|right].
  intros Hin. apply elem_of_select in Hin as (a & Ha & Hl).
  rewrite Ha in H. simpl in H. congruence.
Qed.

Lemma hover_elsewhere_changes_nothing_witness :
  from_option is_html_link false (d_anchors demo_doc !! 1) = false ∧
  step (PointerEnter 1) (run [Scroll] demo_page) = run [Scroll] demo_page.
Proof.
  split; [reflexivity|].
  apply (hover_elsewhere_changes_nothing demo_env (NetworkInformation "4g")
           demo_doc [Scroll] 1).
  right. reflexivity.
Defined.

(** ** The size diagnostics *)

Lemma window_load_listeners_loaded (e : Env) (c : NavConnection) (d : Document) :
  filter (λ r, listens TWindow load r) (listeners (page_load e c d)) =
  if negb (is_nullish c) && localhost e then [report_reg] else [].
Proof.
  rewrite (filter_loaded (listens TWindow load)).
  rewrite filter_dcl_regs by done.
  rewrite filter_tracking_other by done.
  rewrite filter_app.
  assert (H1 : filter (λ r, listens TWindow load r)
                 (if has_ontouchstart e then [touch_reg] else []) = []).
  { by destruct (has_ontouchstart e). }
  rewrite H1.
  destruct (is_nullish c); [done|].
  assert (H2 : filter (λ r, listens TWindow load r) (network_regs c) = []).
  { by destruct c. }
  rewrite H2, filter_fmap_none by done. simpl.
  destruct (localhost e); [|done].
  by rewrite filter_fmap_none.
Qed.

(** Without [checkImageSizes] no listener of the page measures. *)
Lemma measure_free_loaded (e : Env) (c : NavConnection) (d : Document)
    (r : Registration) :
  is_nullish c = true ∨ localhost e = false →
  r ∈ listeners (page_load e c d) → reg_handler r ≠ MeasureSize.
Proof.
  intros H Hr Hm.
  assert (Hin : r ∈ filter (λ r, bool_decide (reg_handler r = MeasureSize))
                     (listeners (page_load e c d))).
  { apply list_elem_of_filter. split; [|done]. by apply bool_decide_pack. }
  rewrite (filter_loaded (λ r, bool_decide (reg_handler r = MeasureSize))) in Hin.
  assert (H0 : filter (λ r, bool_decide (reg_handler r = MeasureSize)) (dcl_regs e)
               = []).
  { unfold dcl_regs. by destruct (has_IntersectionObserver e), (readyState e). }
  assert (H1 : filter (λ r, bool_decide (reg_handler r = MeasureSize))
                 (tracking_regs (registered_images d) (d_imgs d)) = []).
  { apply (filter_none (λ r, bool_decide (reg_handler r = MeasureSize))).
    intros x Hx. apply elem_of_tracking_regs in Hx as (i & _ & _ & [->| ->]);
      done. }
  assert (H2 : filter (λ r, bool_decide (reg_handler r = MeasureSize))
                 ((if has_ontouchstart e then [touch_reg] else []) ++ [scroll_reg])
               = []).
  { by destruct (has_ontouchstart e). }
  assert (H3 : filter (λ r, bool_decide (reg_handler r = MeasureSize))
                 (network_regs c) = []).
  { by destruct c. }
  assert (H4 : filter (λ r, bool_decide (reg_handler r = MeasureSize))
                 (prefetch_reg <$> select is_html_link (d_anchors d)) = []).
  { apply (filter_none (λ r, bool_decide (reg_handler r = MeasureSize))).
    intros x Hx. by apply list_elem_of_fmap in Hx as (k & -> & _). }
  rewrite H0, H1, H2, H3, H4 in Hin.
  destruct (is_nullish c); [by apply elem_of_nil in Hin|].
  destruct H as [H|H]; [done|]. rewrite H in Hin. by apply elem_of_nil in Hin.
Qed.

Lemma step_largeImages (ev : Event) (p : Page) :
  script_table p →
  (∀ r, r ∈ listeners p → reg_handler r ≠ MeasureSize) →
  largeImages (step ev p) = largeImages p.
Proof.
  intros Ht Hfree.
  assert (Hd : ∀ t ty q, script_table q → ty ≠ DOMContentLoaded →
            listeners q = listeners p →
            largeImages (dispatchEvent t ty q) = largeImages q).
  { intros t ty q Hq Hty Hl.
    apply (dispatchEvent_member (λ q', largeImages q' = largeImages q));
      [done | done |].
    intros r q' Hin Hk _ Hr Hq''. rewrite <- Hq''.
    destruct (invoke_known_fields r q' Hk) as (_ & _ & _ & _ & _ & Hm & _).
    { by rewrite Hr. }
    apply Hm, Hfree. by rewrite <- Hl. }
  destruct ev; simpl; try by apply Hd.
  - unfold deliver.
    by destruct (imageObserver_scheduling
                (filter (λ en, bool_decide (target en ∈ observed p)) entries) p)
      as (_ & _ & H & _).
  - destruct (connection p); try done. by rewrite Hd.
  - apply (forEach_inv (λ q, largeImages q = largeImages p)); [done|].
    by intros [] q _.
Qed.

Lemma run_largeImages (P : Page) (evs : list Event) (q : Page) :
  (∀ r, r ∈ listeners P → reg_handler r ≠ MeasureSize) →
  quiet P q → largeImages (run evs q) = largeImages q.
Proof.
  intros Hfree. revert q. induction evs as [|ev evs IH]; intros q Hq; [done|].
  change (run (ev :: evs) q) with (run evs (step ev q)).
  rewrite IH by by apply quiet_step.
  destruct Hq as (Ht & _ & _ & _ & Hs & _).
  apply step_largeImages; [done|].
  intros r Hr. apply Hfree. by apply (sublist_subseteq _ _ Hs).
Qed.

(** X9.  Away from [localhost] and [127.0.0.1] the size diagnostics do not
    exist: no image is ever recorded as too large and the window's load
    event changes nothing. *)
Theorem diagnostics_only_on_localhost
    (e : Env) (c : NavConnection) (d : Document) (evs : list Event) :
  localhost e = false →
  let p := run evs (page_load e c d) in
  largeImages p = [] ∧ step WindowLoad p = p.
Proof.
  intros Hl. cbv zeta. split.
  - rewrite (run_largeImages (page_load e c d)).
    + by rewrite page_load_closed.
    + intros r. apply measure_free_loaded. by right.
    + apply quiet_refl, script_table_loaded.
  - simpl. unfold dispatchEvent. rewrite listeners_reachable by done.
    rewrite window_load_listeners_loaded, Hl. by rewrite andb_false_r.
Qed.

Lemma diagnostics_only_on_localhost_witness :
  localhost demo_env = false ∧
  largeImages (run [ImgLoaded 0; WindowLoad] demo_page) = [] ∧
  step WindowLoad (run [ImgLoaded 0; WindowLoad] demo_page) =
  run [ImgLoaded 0; WindowLoad] demo_page.
Proof.
  split; [reflexivity|].
  apply (diagnostics_only_on_localhost demo_env (NetworkInformation "4g") demo_doc
           [ImgLoaded 0; WindowLoad]).
  reflexivity.
Defined.

(** ** A nullish [navigator.connection] *)

Lemma run_head (evs : list Event) (p : Page) :
  script_table p → (∀ j, armed j p = 0) → head (run evs p) = head p.
Proof.
  revert p. induction evs as [|ev evs IH]; intros p Ht Ha; [done|].
  change (run (ev :: evs) p) with (run evs (step ev p)).
  rewrite IH.
  - apply step_head; [done|]. intros j _. apply Ha.
  - apply (quiet_step ev p p (quiet_refl p Ht)).
  - intros j. pose proof (armed_step j ev p Ht) as H. rewrite Ha in H. lia.
Qed.

Lemma run_static_connection (evs : list Event) (p : Page) :
  script_table p → (∀ t, connection p ≠ NetworkInformation t) →
  connection (run evs p) = connection p ∧
  body_classList (run evs p) = body_classList p.
Proof.
  revert p. induction evs as [|ev evs IH]; intros p Ht Hc; [done|].
  change (run (ev :: evs) p) with (run evs (step ev p)).
  destruct (step_connection_body ev p Ht) as [H1 H2].
  assert (Hr : reports_change ev (connection p) = false).
  { destruct ev; try done. simpl. destruct (connection p) as [| |t] eqn:E; [done..|].
    by destruct (Hc t). }
  assert (Hc' : connection (step ev p) = connection p).
  { rewrite H1. destruct ev; try done. simpl.
    destruct (connection p) as [| |t] eqn:E; [done..|]. by destruct (Hc t). }
  destruct (IH (step ev p)) as [H3 H4].
  - apply (quiet_step ev p p (quiet_refl p Ht)).
  - intros t. rewrite Hc'. apply Hc.
  - rewrite H3, H4, Hc'. split; [done|]. by apply H2.
Qed.

(** X10.  With a nullish [navigator.connection] the listener registration
    throws: [init] stops there, and when the document had already been
    parsed the exception leaves the script before the stylesheet is
    injected.  The error is reported once; afterwards [document.head] and
    the body's class list never change, nothing is recorded as too large
    and the window's load event changes nothing. *)
Theorem nullish_connection_stops_init
    (e : Env) (d : Document) (evs : list Event) :
  let p := run evs (page_load e NullishConnection d) in
  (script (fresh_page e NullishConnection d)).2 =
    (if is_loading e then Normal tt else Throw nullish_error) ∧
  uncaught p = [nullish_error] ∧
  head p = d_head d ++ (if is_loading e then [StyleNode] else []) ∧
  body_classList p = d_body_class d ∧
  largeImages p = [] ∧
  step WindowLoad p = p.
Proof.
  cbv zeta. pose proof (script_table_loaded e NullishConnection d) as Ht.
  split; [|split; [|split; [|split; [|split]]]].
  - rewrite script_completes. cbn [env connection fresh_page is_nullish negb].
    by rewrite orb_false_r.
  - destruct (quiet_reachable e NullishConnection d evs) as (_ & Hu & _).
    rewrite Hu. by rewrite page_load_closed.
  - rewrite run_head; [|done|].
    + rewrite page_load_closed. cbn [head loaded_page is_nullish negb].
      by rewrite orb_false_r.
    + intros j. apply armed_no_link. by left.
  - destruct (run_static_connection evs _ Ht) as [_ H].
    + intros t. by rewrite page_load_closed.
    + rewrite H. by rewrite page_load_closed.
  - rewrite (run_largeImages (page_load e NullishConnection d)).
    + by rewrite page_load_closed.
    + intros r. apply measure_free_loaded. by left.
    + by apply quiet_refl.
  - simpl. unfold dispatchEvent. rewrite listeners_reachable by done.
    by rewrite window_load_listeners_loaded.
Qed.

(** ** The load listeners of one image *)

Lemma filter_pair_load (i x : nat) :
  filter (λ r, listens (TImg i) load r) [fade_reg x; error_reg x] =
  if bool_decide (x = i) then [fade_reg x] else [].
Proof.
  rewrite !filter_cons, filter_nil. unfold listens.
  cbn [reg_target reg_type fade_reg error_reg].
  case_bool_decide as E.
  - injection E as ->. by rewrite (bool_decide_eq_true_2 (i = i)).
  - by rewrite (bool_decide_eq_false_2 (x = i)) by congruence.
Qed.

Lemma filter_tracking_load (i : nat) (l : list nat) (ims : list Img) :
  NoDup l →
  filter (λ r, listens (TImg i) load r) (tracking_regs l ims) =
  if bool_decide (i ∈ l) && negb (from_option img_complete false (ims !! i))
  then [fade_reg i] else [].
Proof.
  unfold tracking_regs. induction 1 as [|x l Hx _ IH]; [done|].
  cbn [flat_map]. rewrite filter_app, IH.
  destruct (decide (x = i)) as [->|Hne].
  - rewrite (bool_decide_eq_true_2 (i ∈ i :: l)) by left.
    rewrite (bool_decide_eq_false_2 (i ∈ l)) by done. cbn [andb].
    destruct (from_option img_complete false (ims !! i)); [done|].
    rewrite filter_pair_load, bool_decide_eq_true_2 by done. done.
  - assert (bool_decide (i ∈ x :: l) = bool_decide (i ∈ l)) as ->.
    { apply bool_decide_ext. rewrite elem_of_cons. naive_solver. }
    destruct (from_option img_complete false (ims !! x)); [done|].
    rewrite filter_pair_load, bool_decide_eq_false_2 by done. done.
Qed.

Lemma filter_measure_load (i : nat) (l : list nat) :
  NoDup l →
  filter (λ r, listens (TImg i) load r) (measure_reg <$> l) =
  if bool_decide (i ∈ l) then [measure_reg i] else [].
Proof.
  induction 1 as [|x l Hx _ IH]; [done|].
  rewrite fmap_cons, filter_cons, IH. unfold listens.
  cbn [reg_target reg_type measure_reg].
  destruct (decide (x = i)) as [->|Hne].
  - rewrite (bool_decide_eq_true_2 (TImg i = TImg i)) by done.
    rewrite (bool_decide_eq_true_2 (load = load)) by done.
    rewrite (bool_decide_eq_true_2 (i ∈ i :: l)) by left.
    by rewrite (bool_decide_eq_false_2 (i ∈ l)).
  - rewrite (bool_decide_eq_false_2 (TImg x = TImg i)) by congruence.
    simpl. apply (f_equal (λ b : bool, if b then [measure_reg i] else [])).
    apply bool_decide_ext. rewrite elem_of_cons. naive_solver.
Qed.

Lemma select_measured (d : Document) (l : list nat) (i : nat) :
  bool_decide (i ∈ select is_png_or_jpg (mark_complete l (d_imgs d))) =
  measured d i.
Proof.
  destruct (attributes_lookup _ _ i (attributes_mark_complete l (d_imgs d)))
    as [Hs _].
  assert (Hm : ∀ ims : list Img,
            from_option is_png_or_jpg false (ims !! i) =
            from_option (λ s, Str.occurs false ".png" s || Str.occurs false ".jpg" s)
              false (ims !! i ≫= img_src)).
  { intros ims. by destruct (ims !! i). }
  unfold measured. rewrite (Hm (d_imgs d)), <- Hs, <- Hm.
  destruct (from_option _ _ _) eqn:E.
  - apply bool_decide_eq_true, elem_of_select.
    destruct (mark_complete l (d_imgs d) !! i) as [im|]; [|done]. by exists im.
  - apply bool_decide_eq_false. intros Hin.
    apply elem_of_select in Hin as (im & Him & Hp). rewrite Him in E.
    simpl in E. congruence.
Qed.

Lemma load_listeners_loaded (e : Env) (c : NavConnection) (d : Document) (i : nat) :
  filter (λ r, listens (TImg i) load r) (listeners (page_load e c d)) =
  (if bool_decide (i ∈ registered_images d)
      && negb (from_option img_complete false (d_imgs d !! i))
   then [fade_reg i] else []) ++
  (if negb (is_nullish c) && localhost e && measured d i
   then [measure_reg i] else []).
Proof.
  rewrite (filter_loaded (listens (TImg i) load)).
  rewrite filter_dcl_regs by done.
  rewrite filter_tracking_load by apply NoDup_select.
  rewrite filter_app.
  assert (H1 : filter (λ r, listens (TImg i) load r)
                 (if has_ontouchstart e then [touch_reg] else []) = []).
  { by destruct (has_ontouchstart e). }
  rewrite H1. simpl. f_equal.
  destruct (is_nullish c); [done|].
  assert (H2 : filter (λ r, listens (TImg i) load r) (network_regs c) = []).
  { by destruct c. }
  rewrite H2, (filter_fmap_none _ _ prefetch_reg) by done. simpl.
  destruct (localhost e); [|done].
  rewrite filter_measure_load by apply NoDup_select.
  rewrite select_measured. by destruct (measured d i).
Qed.

Lemma size_record_classList_add (i k : nat) (cl : string) (p : Page) :
  size_record i (classList_add k cl p) = size_record i p.
Proof.
  unfold size_record, src_of, classList_add. rewrite lookup_alter_img.
  cbn [env alter_img set_imgs].
  destruct (decide (k = i)) as [->|]; [|done].
  by destruct (imgs p !! i).
Qed.

Lemma measureSize_eq (i : nat) (p : Page) :
  largeImages (measureSize (TImg i) p) = largeImages p ++ size_record i p.
Proof.
  unfold measureSize, size_record, oversized, natural_area, display_area.
  destruct (imgs p !! i) as [im|]; [|by rewrite app_nil_r].
  destruct (Num.gt _ _); [done | by rewrite app_nil_r].
Qed.

(** Below [2^53] a Number is the integer itself: products of that size
    are exact. *)
Lemma round_exact (v : N) : (v < 2 ^ 53)%N → Num.round v = v.
Proof.
  intros H. unfold Num.round.
  assert (Hs : (N.size v - 53 = 0)%N).
  { apply N.sub_0_le. destruct (decide (v = 0%N)) as [->|Hv]; [done|].
    rewrite N.size_log2 by done.
    apply N.le_succ_l, N.log2_lt_pow2; [lia | done]. }
  by rewrite Hs.
Qed.

(** X11.  A load event of an image appends a size record exactly when
    the diagnostics are installed for it (the host is [localhost] or
    [127.0.0.1], [navigator.connection] is not nullish, and the [src]
    attribute of its markup contains [.png] or [.jpg]) and its natural
    area, as the Number the listener computes, exceeds twice its display
    area: then the one record holds its current address and both areas,
    and every such load event appends one more; otherwise the records stay
    as they are. *)
Theorem load_event_measures_image
    (e : Env) (c : NavConnection) (d : Document) (evs : list Event) (i : nat) :
  let p := run evs (page_load e c d) in
  largeImages (step (ImgLoaded i) p) =
  largeImages p ++
  (if negb (is_nullish c) && localhost e && measured d i
   then size_record i p else []).
Proof.
  cbv zeta. simpl. unfold dispatchEvent.
  rewrite listeners_reachable by done.
  rewrite load_listeners_loaded.
  set (p := run evs (page_load e c d)).
  assert (Hf : invoke (fade_reg i) p = classList_add i "loaded" p) by done.
  assert (Hm : ∀ q, invoke (measure_reg i) q = measureSize (TImg i) q) by done.
  destruct (_ && negb _), (_ && measured d i); cbn [app forEach foldl];
    rewrite ?Hf, ?Hm, ?measureSize_eq, ?size_record_classList_add;
    try done; by rewrite app_nil_r.
Qed.

(** X12.  The window's load event prints the records made so far: nothing
    when there are none (as is always the case away from [localhost] or
    with a nullish connection), otherwise a group with a heading, one line
    per record in the order they were made, and a closing advice.  The
    records themselves are kept. *)
Theorem window_load_reports_records
    (e : Env) (c : NavConnection) (d : Document) (evs : list Event) :
  let p := run evs (page_load e c d) in
  console (step WindowLoad p) = console p ++ recommendations (largeImages p) ∧
  largeImages (step WindowLoad p) = largeImages p.
Proof.
  cbv zeta. simpl. unfold dispatchEvent.
  rewrite listeners_reachable by done.
  rewrite window_load_listeners_loaded.
  destruct (negb (is_nullish c) && localhost e) eqn:Hon; cbn [forEach foldl].
  - set (p := run evs (page_load e c d)).
    assert (Hr : invoke report_reg p = reportLargeImages p) by done.
    rewrite Hr, reportLargeImages_eq. unfold recommendations.
    destruct (largeImages p) as [|x l] eqn:E; simpl.
    + by rewrite app_nil_r.
    + by rewrite E.
  - rewrite (run_largeImages (page_load e c d)).
    + rewrite page_load_closed. cbn [largeImages loaded_page recommendations].
      by rewrite app_nil_r.
    + intros r. apply measure_free_loaded.
      apply andb_false_iff in Hon as [Hon|Hon]; [left|by right].
      by apply negb_false_iff.
    + apply quiet_refl, script_table_loaded.
Qed.

(** ** What the script never touches *)

(** A general invariant of runs from a page the script set up. *)
Lemma run_inv (P : Page → Prop) (evs : list Event) (p : Page) :
  script_table p → P p →
  (∀ ev q, script_table q → P q → P (step ev q)) →
  P (run evs p).
Proof.
  intros Ht Hp Hstep. revert p Ht Hp.
  induction evs as [|ev evs IH]; intros p Ht Hp; [done|].
  change (run (ev :: evs) p) with (run evs (step ev p)).
  apply IH; [|by apply Hstep].
  apply (quiet_step ev p p (quiet_refl p Ht)).
Qed.

(** A property of pages that every listener invocation, every observer
    callback and every field the platform owns preserve. *)
Lemma step_inv (P : Page → Prop) (ev : Event) (p : Page) :
  script_table p → P p →
  (∀ r q, known_reg r = true → reg_type r ≠ DOMContentLoaded →
          P q → P (invoke r q)) →
  (∀ es q, P q → P (imageObserver es q)) →
  (∀ ty q, P q → P (set_connection (NetworkInformation ty) q)) →
  (∀ q, P q → P (set_raf_queue (λ _, []) q)) →
  (∀ q, P q → P (set_ticking false q)) →
  P (step ev p).
Proof.
  intros Ht Hp Hinv Hobs Hconn Hq Htick.
  assert (Hd : ∀ t ty q, script_table q → ty ≠ DOMContentLoaded → P q →
            P (dispatchEvent t ty q)).
  { intros t ty q Hq' Hty HP. apply dispatchEvent_known; [done | done |].
    intros r q' Hk _ Hr. apply Hinv; [done|]. by rewrite Hr. }
  destruct ev; simpl; try by apply Hd.
  - by apply Hobs.
  - destruct (connection p); try done. apply Hd; [done | done |]. by apply Hconn.
  - apply forEach_inv; [by apply Hq|]. intros [] q _. apply Htick.
Qed.

Lemma elem_of_ClassList_remove (c x : string) (l : ClassList.t) :
  x ∈ ClassList.remove c l ↔ x ≠ c ∧ x ∈ l.
Proof. unfold ClassList.remove. by rewrite list_elem_of_filter. Qed.

Lemma networkChange_body (cl : string) (p : Page) :
  cl ≠ "low-bandwidth" →
  cl ∈ body_classList (networkChange p) ↔ cl ∈ body_classList p.
Proof.
  intros Hcl. unfold networkChange.
  destruct (connection p) as [| |t]; [done..|].
  destruct (low_bandwidth t); simpl.
  - rewrite elem_of_ClassList_add. naive_solver.
  - rewrite elem_of_ClassList_remove. naive_solver.
Qed.

(** X13.  Of the classes of [document.body] the script only ever adds or
    removes [low-bandwidth]: every other class is on the body after any
    events exactly when the markup has it. *)
Theorem body_classes_other_than_flag_kept
    (e : Env) (c : NavConnection) (d : Document) (evs : list Event) (cl : string) :
  cl ≠ "low-bandwidth" →
  cl ∈ body_classList (run evs (page_load e c d)) ↔ cl ∈ d_body_class d.
Proof.
  intros Hcl.
  apply (run_inv (λ q, cl ∈ body_classList q ↔ cl ∈ d_body_class d)).
  - apply script_table_loaded.
  - rewrite page_load_closed. cbn [body_classList loaded_page].
    destruct c as [| |t]; [done..|]. destruct (low_bandwidth t); [|done].
    rewrite elem_of_ClassList_add. naive_solver.
  - intros ev q Hq HP. apply step_inv; try done.
    + intros r q' Hk Hty HP'. rewrite <- HP'.
      destruct (decide (r = change_reg)) as [->|Hne].
      * by apply networkChange_body.
      * destruct (invoke_known_frame r q' Hk Hty) as (_ & _ & _ & _ & _ & Hb & _).
        by rewrite Hb.
    + intros es q' HP'.
      destruct (imageObserver_frame es q') as (_ & _ & _ & Hb & _).
      by rewrite Hb.
Qed.

Lemma body_classes_other_than_flag_kept_witness :
  "home" ≠ "low-bandwidth" ∧
  ("home" ∈ body_classList
              (run [ConnectionChange "2g"; ConnectionChange "4g"]
                 (page_load local_env (NetworkInformation "2g") local_doc))
   ↔ "home" ∈ d_body_class local_doc).
Proof.
  split; [done|].
  apply (body_classes_other_than_flag_kept local_env (NetworkInformation "2g")
           local_doc [ConnectionChange "2g"; ConnectionChange "4g"] "home").
  done.
Defined.

(** ** The classes of an image *)

Lemma mark_complete_classes (l : list nat) (ims : list Img) (i : nat) (cl : string) :
  cl ∈ from_option img_classList [] (mark_complete l ims !! i) →
  cl ∈ from_option img_classList [] (ims !! i) ∨ cl = "loaded".
Proof.
  unfold mark_complete. revert ims.
  induction l as [|x l IH]; intros ims H; simpl in H; [by left|].
  apply IH in H as [H|H]; [|by right].
  destruct (from_option img_complete false (ims !! x)); [|by left].
  destruct (decide (x = i)) as [->|Hne].
  - rewrite list_lookup_alter_eq in H. destruct (ims !! i); simpl in *; [|by left].
    apply elem_of_ClassList_add in H. naive_solver.
  - rewrite list_lookup_alter_ne in H by done. by left.
Qed.

Lemma classes_classList_add_inv (i k : nat) (c cl : string) (p : Page) :
  cl ∈ classes i (classList_add k c p) → cl ∈ classes i p ∨ cl = c.
Proof.
  rewrite classes_classList_add. case_decide; [|by left].
  rewrite elem_of_ClassList_add. naive_solver.
Qed.

Lemma invoke_known_classes (r : Registration) (p : Page) (i : nat) (cl : string) :
  known_reg r = true → reg_type r ≠ DOMContentLoaded →
  cl ∈ classes i (invoke r p) →
  cl ∈ classes i p ∨ cl = "loaded" ∨ cl = "error".
Proof.
  intros Hk Hty.
  destruct (invoke_known r p Hk Hty)
    as [(k & -> & ->)|[(k & -> & ->)|[(k & -> & ->)|[[-> ->]|[[-> ->]|[[-> ->]|
        [(j & -> & ->)|[-> ->]]]]]]]].
  - intros H. apply classes_classList_add_inv in H. naive_solver.
  - unfold markError.
    change (classes i (console_call ?c ?q)) with (classes i q).
    intros H. apply classes_classList_add_inv in H. naive_solver.
  - unfold measureSize. destruct (imgs p !! k); [|by left].
    destruct (Num.gt _ _); by left.
  - by left.
  - unfold throttleScroll. destruct (negb _); by left.
  - unfold networkChange. destruct (connection p) as [| |t]; try by left.
    destruct (low_bandwidth t); by left.
  - by left.
  - rewrite reportLargeImages_eq. destruct (_ <? _)%nat; by left.
Qed.

(** X14.  The only classes the script ever puts on an image are [loaded]
    and [error]: any other class an image has after any events is one of
    its markup. *)
Theorem image_classes_are_markup_or_status
    (e : Env) (c : NavConnection) (d : Document) (evs : list Event)
    (i : nat) (cl : string) :
  cl ∈ classes i (run evs (page_load e c d)) →
  cl ∈ markup_classes d i ∨ cl = "loaded" ∨ cl = "error".
Proof.
  apply (run_inv (λ q, cl ∈ classes i q →
                       cl ∈ markup_classes d i ∨ cl = "loaded" ∨ cl = "error")).
  - apply script_table_loaded.
  - rewrite page_load_closed. unfold classes. cbn [imgs loaded_page].
    intros H. apply mark_complete_classes in H. naive_solver.
  - intros ev q Hq HP. apply step_inv; try done.
    + intros r q' Hk Hty HP' H.
      apply invoke_known_classes in H; [|done..]. naive_solver.
    + intros es q' HP'.
      destruct (imageObserver_frame es q') as (_ & _ & _ & _ & _ & _ & _ & _ & Hc & _).
      by rewrite Hc.
Qed.

Lemma image_classes_are_markup_or_status_witness :
  "loaded" ∈ classes 0 (run [ImgLoaded 0; ImgFailed 0]
                          (page_load demo_env (NetworkInformation "4g") demo_doc)) ∧
  ("loaded" ∈ markup_classes demo_doc 0 ∨ "loaded" = "loaded" ∨ "loaded" = "error").
Proof.
  assert (H : "loaded" ∈ classes 0 (run [ImgLoaded 0; ImgFailed 0]
                (page_load demo_env (NetworkInformation "4g") demo_doc))).
  { apply (bool_decide_unpack _). vm_compute. exact I. }
  split; [exact H|].
  exact (image_classes_are_markup_or_status demo_env (NetworkInformation "4g")
           demo_doc [ImgLoaded 0; ImgFailed 0] 0 "loaded" H).
Defined.

(** X15.  The animation library is configured at most once, at
    [DOMContentLoaded] if that was still to come when the script ran, from
    the connection as it was then: no later event, a connection change
    included, configures it again. *)
Theorem aos_configured_once_at_load
    (e : Env) (c : NavConnection) (d : Document) (evs : list Event) :
  aos_calls (run evs (page_load e c d)) =
  if awaits_DOMContentLoaded e && has_AOS e
     && (isMobile (userAgent e) || isSlowConnection c)
  then [aos_config (isSlowConnection c)] else [].
Proof.
  apply (run_inv (λ q, aos_calls q = _)).
  - apply script_table_loaded.
  - by rewrite page_load_closed.
  - intros ev q Hq HP. apply step_inv; try done.
    + intros r q' Hk Hty HP'. rewrite <- HP'.
      by destruct (invoke_known_fields r q' Hk Hty) as (_ & _ & Ha & _).
    + intros es q' HP'.
      destruct (imageObserver_scheduling es q') as (_ & _ & _ & Ha).
      by rewrite Ha.
Qed.

(** X16.  Right after loading, the body carries [low-bandwidth] exactly
    when the connection's effective type is [slow-2g] or [2g] or the
    markup already had the class: the initial check only ever adds the
    class, and unlike the change listener it prints nothing. *)
Theorem initial_check_only_adds
    (e : Env) (c : NavConnection) (d : Document) :
  reduced_activity (page_load e c d) =
    initially_low c || ClassList.contains "low-bandwidth" (d_body_class d) ∧
  console (page_load e c d) = [].
Proof.
  rewrite page_load_closed. split; [|done].
  unfold reduced_activity. cbn [body_classList loaded_page].
  destruct c as [| |t]; [done..|]. simpl.
  destruct (low_bandwidth t); [|done]. apply contains_add.
Qed.

(** ** Selectors and the regular expression, declaratively *)

Lemma starts_with_inv (pat s : string) :
  Str.starts_with false pat s = true → ∃ post, s = pat +:+ post.
Proof.
  revert s. induction pat as [|a pat IH]; intros s H; [by exists s|].
  destruct s as [|b s]; [done|]. simpl in H.
  apply andb_true_iff in H as [Hc H]. apply bool_decide_eq_true in Hc as ->.
  destruct (IH s H) as [post ->]. by exists post.
Qed.

Lemma occurs_inv (pat s : string) :
  Str.occurs false pat s = true → ∃ pre post, s = pre +:+ pat +:+ post.
Proof.
  induction s as [|b s IH]; intros H.
  - simpl in H. rewrite orb_false_r in H.
    destruct (starts_with_inv _ _ H) as [post ->]. by exists "", post.
  - simpl in H. apply orb_true_iff in H as [H|H].
    + change (Str.starts_with false pat (String b s) = true) in H.
      destruct (starts_with_inv _ _ H) as [post ->]. by exists "", post.
    + destruct (IH H) as (pre & post & ->). by exists (String b pre), post.
Qed.

Lemma is_html_link_spec (a : Anchor) :
  is_html_link a = true ↔ ∃ pre post, a_href a = Some (pre +:+ ".html" +:+ post).
Proof.
  unfold is_html_link. split.
  - destruct (a_href a) as [s|]; [|done]. simpl. intros H.
    destruct (occurs_inv _ _ H) as (pre & post & ->). by exists pre, post.
  - intros (pre & post & ->). apply occurs_append.
Qed.

Lemma select_html_link (d : Document) (j : nat) :
  j ∈ select is_html_link (d_anchors d) ↔
  ∃ pre post, d_anchors d !! j ≫= a_href = Some (pre +:+ ".html" +:+ post).
Proof.
  rewrite elem_of_select. split.
  - intros (a & Ha & Hl). apply is_html_link_spec in Hl as (pre & post & Hl).
    exists pre, post. by rewrite Ha.
  - intros (pre & post & H). destruct (d_anchors d !! j) as [a|]; [|done].
    exists a. split; [done|]. apply is_html_link_spec. by exists pre, post.
Qed.

Lemma armed_selected (e : Env) (c : NavConnection) (d : Document) (j : nat) :
  armed j (page_load e c d) = 1 ↔
  is_nullish c = false ∧ j ∈ select is_html_link (d_anchors d).
Proof.
  split.
  - intros H. destruct (is_nullish c) eqn:Hc.
    { rewrite armed_no_link in H by by left. done. }
    split; [done|].
    destruct (decide (j ∈ select is_html_link (d_anchors d))) as [|Hn]; [done|].
    rewrite armed_no_link in H by by right. done.
  - intros [Hc Hj]. by apply armed_html_link.
Qed.

(** X17.  While the page loads, a hover listener is registered on exactly
    the links whose [href] attribute contains [.html], one per link, and
    on none when [navigator.connection] is nullish. *)
Theorem prefetch_listener_selection
    (e : Env) (c : NavConnection) (d : Document) (j : nat) :
  (armed j (page_load e c d) ≤ 1)%nat ∧
  (armed j (page_load e c d) = 1 ↔
   is_nullish c = false ∧
   ∃ pre post, d_anchors d !! j ≫= a_href = Some (pre +:+ ".html" +:+ post)).
Proof.
  split; [apply armed_loaded|].
  by rewrite armed_selected, select_html_link.
Qed.

Lemma fold_starts_with (pat s : string) :
  Str.starts_with true pat s = true ↔
  ∃ mid post, s = mid +:+ post ∧ fold_string mid = fold_string pat.
Proof.
  revert s. induction pat as [|a pat IH]; intros s.
  - split; [by exists "", s|done].
  - destruct s as [|b s]; simpl.
    + split; [done|]. intros (mid & post & Hs & Hf).
      destruct mid; [done|]. discriminate Hs.
    + rewrite andb_true_iff, IH. unfold Str.char_eq.
      rewrite bool_decide_eq_true. split.
      * intros (Hc & mid & post & -> & Hf). exists (String b mid), post.
        split; [done|]. simpl. by rewrite Hc, Hf.
      * intros (mid & post & Hs & Hf). destruct mid as [|b' mid]; [done|].
        simpl in Hs, Hf. injection Hs as -> ->. injection Hf as Hc Hf.
        split; [done|]. by exists mid, post.
Qed.

Lemma fold_occurs (pat s : string) :
  Str.occurs true pat s = true ↔
  ∃ pre mid post, s = pre +:+ mid +:+ post ∧ fold_string mid = fold_string pat.
Proof.
  induction s as [|b s IH].
  - simpl. rewrite orb_false_r.
    change (match pat with "" => true | String _ _ => false end)
      with (Str.starts_with true pat "").
    rewrite fold_starts_with. split.
    + intros (mid & post & Hs & Hf). by exists "", mid, post.
    + intros (pre & mid & post & Hs & Hf). destruct pre; [|done].
      by exists mid, post.
  - change (Str.occurs true pat (String b s))
      with (Str.starts_with true pat (String b s) || Str.occurs true pat s).
    rewrite orb_true_iff, IH, fold_starts_with. split.
    + intros [(mid & post & Hs & Hf)|(pre & mid & post & -> & Hf)].
      * by exists "", mid, post.
      * by exists (String b pre), mid, post.
    + intros (pre & mid & post & Hs & Hf). destruct pre as [|b' pre].
      * left. by exists mid, post.
      * right. simpl in Hs. injection Hs as -> ->. by exists pre, mid, post.
Qed.

(** X18.  The user-agent test of the animation set-up holds exactly when,
    letter case aside, the user agent contains one of the eight device
    names of the regular expression. *)
Theorem isMobile_matches_device_names (ua : string) :
  isMobile ua = true ↔
  ∃ name pre mid post,
    name ∈ mobile_patterns ∧ ua = pre +:+ mid +:+ post ∧
    fold_string mid = fold_string name.
Proof.
  unfold isMobile. rewrite existsb_exists. split.
  - intros (name & Hin & H). apply list_elem_of_In in Hin.
    apply fold_occurs in H as (pre & mid & post & Hs & Hf).
    by exists name, pre, mid, post.
  - intros (name & pre & mid & post & Hin & Hs & Hf). exists name.
    split; [by apply list_elem_of_In|]. apply fold_occurs.
    by exists pre, mid, post.
Qed.

(** ** The document head, as a whole *)

(** X19.  After any events, [document.head] is the head of the markup,
    then the injected stylesheet (absent only when the script threw before
    reaching it), then prefetch hints for links of the markup whose [href]
    contains [.html]: the script removes nothing and adds nothing else. *)
Theorem head_grows_by_prefetch_hints
    (e : Env) (c : NavConnection) (d : Document) (evs : list Event) :
  ∃ hints,
    head (run evs (page_load e c d)) =
      d_head d ++
      (if is_loading e || negb (is_nullish c) then [StyleNode] else []) ++ hints ∧
    Forall (prefetch_hint e d) hints.
Proof.
  induction evs as [|ev evs IH] using rev_ind.
  - exists []. split; [|done]. rewrite app_nil_r. by rewrite page_load_closed.
  - destruct IH as (hints & Hh & Hf). rewrite run_snoc.
    destruct (quiet_reachable e c d evs) as (Ht & _ & He & Ha & _).
    set (p := run evs (page_load e c d)) in *.
    assert (Hother : (∀ j, ev = PointerEnter j → armed j p = 0) →
              ∃ hints, head (step ev p) = d_head d ++
                (if is_loading e || negb (is_nullish c) then [StyleNode] else [])
                ++ hints ∧ Forall (prefetch_hint e d) hints).
    { intros H0. exists hints. split; [|done]. by rewrite step_head. }
    destruct ev as [| | |j| | | | |]; try (apply Hother; by intros).
    pose proof (armed_run j evs _ (script_table_loaded e c d)) as Hle.
    fold p in Hle. pose proof (armed_loaded e c d j) as Hle'.
    destruct (decide (armed j p = 0)) as [H0|H0].
    { apply Hother. by intros ? [= ->]. }
    assert (H1 : armed j p = 1) by lia.
    assert (Hsel : armed j (page_load e c d) = 1) by lia.
    apply armed_selected in Hsel as [_ Hsel].
    apply select_html_link in Hsel as (pre & post & Hj).
    destruct (hover_armed j p Ht H1) as [Hhead _].
    exists (hints ++ [LinkNode "prefetch" (resolve_url e (pre +:+ ".html" +:+ post))]).
    split.
    + rewrite Hhead, Hh, <- !app_assoc. do 3 f_equal.
      unfold href_of. rewrite He, Ha, page_load_closed.
      cbn [anchors env loaded_page]. by rewrite Hj.
    + apply Forall_app. split; [done|]. constructor; [|done].
      by exists j, pre, post.
Qed.

(** X20.  No listener of the script ever throws: the only exception the
    platform is ever told of is the one a nullish [navigator.connection]
    causes while the page loads. *)
Theorem only_nullish_connection_throws
    (e : Env) (c : NavConnection) (d : Document) (evs : list Event) :
  uncaught (run evs (page_load e c d)) =
  if is_nullish c then [nullish_error] else [].
Proof.
  destruct (quiet_reachable e c d evs) as (_ & Hu & _).
  rewrite Hu. by rewrite page_load_closed.
Qed.

(** ** Images without listeners *)

Lemma tracked_registered (d : Document) (i : nat) :
  bool_decide (i ∈ registered_images d)
  && negb (from_option img_complete false (d_imgs d !! i)) = tracked d i.
Proof.
  unfold tracked, registered_images.
  destruct (d_imgs d !! i) as [im|] eqn:E; simpl.
  - destruct (is_lazy im) eqn:Hl; simpl.
    + rewrite bool_decide_eq_true_2; [done|]. apply elem_of_select. by exists im.
    + rewrite bool_decide_eq_false_2; [done|]. intros H.
      apply elem_of_select in H as (im' & Him & Hl'). congruence.
  - rewrite bool_decide_eq_false_2; [done|]. intros H.
    apply elem_of_select in H as (im' & Him & _). congruence.
Qed.

(** X21.  An image that [progressiveImageLoad] did not attach listeners to
    (it does not carry [loading="lazy"], or it was already complete) is
    deaf to its later events: an error event changes nothing, and a load
    event changes nothing either, except that on [localhost] an image
    selected by [checkImageSizes] is measured. *)
Theorem untracked_image_events_ignored
    (e : Env) (c : NavConnection) (d : Document) (evs : list Event) (i : nat) :
  tracked d i = false →
  let p := run evs (page_load e c d) in
  step (ImgFailed i) p = p ∧
  step (ImgLoaded i) p =
    if negb (is_nullish c) && localhost e && measured d i
    then measureSize (TImg i) p else p.
Proof.
  intros Ht. cbv zeta. split.
  - simpl. unfold dispatchEvent. rewrite listeners_reachable by done.
    by rewrite error_listeners_loaded, tracked_registered, Ht.
  - simpl. unfold dispatchEvent. rewrite listeners_reachable by done.
    rewrite load_listeners_loaded, tracked_registered, Ht.
    by destruct (_ && measured d i).
Qed.

Lemma untracked_image_events_ignored_witness :
  tracked demo_doc 3 = false ∧
  let p := run [Scroll; ImgLoaded 0] demo_page in
  step (ImgFailed 3) p = p ∧
  step (ImgLoaded 3) p =
    if negb (is_nullish (NetworkInformation "4g")) && localhost demo_env
       && measured demo_doc 3
    then measureSize (TImg 3) p else p.
Proof.
  split; [reflexivity|].
  apply (untracked_image_events_ignored demo_env (NetworkInformation "4g") demo_doc
           [Scroll; ImgLoaded 0] 3).
  reflexivity.
Defined.
